(** * Room-state synchronisation of the collaborative editor server

    A shallow embedding of the socket handlers of [src/server/index.js]
    (lines 71-155): the two in-memory stores [userSocketMap] and
    [roomsFiles], the room membership kept by the socket.io adapter, and
    the eight event handlers registered on every connection.

    Modelling conventions.
    - The two JS objects used as dictionaries are finite maps on string
      keys holding their own properties; a missing key reads as [None]
      (JS [undefined]).  [roomsFiles] is read with keys sent by clients,
      so a read that misses falls through to the properties inherited
      from [Object.prototype]; the keys of [userSocketMap] are the
      connection ids the transport generates, none of which is such a
      name.
    - A handler that throws ends the process: the run stops there.
    - Payload fields are typed as the client sends them: room ids, names,
      code and chat text are strings, a file is a [{name, content}] record
      and a file index is an integer, possibly negative or out of range.
    - JS truthiness is written out where the code branches on a value:
      the empty string is falsy, arrays and objects are truthy,
      [undefined] is falsy.
    - The transport (socket.io) is reduced to what the handlers use:
      [socket.join], the adapter's [rooms] map, and the three ways of
      emitting.  A room's member set keeps insertion order, as a JS [Set]
      does. *)

From stdpp Require Import gmap strings list fin_maps.
From Stdlib Require Import ZArith.

Local Open Scope Z_scope.

(** ** JavaScript primitives used by the handlers *)

Module JS.

(** Truthiness of a string value: only the empty string is falsy. *)
Definition truthy_string (s : string) : bool :=
  negb (String.eqb s "").

(** Truthiness of a possibly-[undefined] object or array reference. *)
Definition truthy_ref {A} (v : option A) : bool :=
  match v with Some _ => true | None => false end.

(** [v || d] for a possibly-[undefined] string [v]. *)
Definition or_else (v : option string) (d : string) : string :=
  match v with
  | Some s => if truthy_string s then s else d
  | None => d
  end.

(** [arr[i]] for an integer [i]: own elements live at [0 .. length-1];
    any other integer key is absent. *)
Definition array_get {A} (arr : list A) (i : Z) : option A :=
  if decide (0 ≤ i) then arr !! Z.to_nat i else None.

(** [arr.push(x)], returning the new array. *)
Definition push {A} (arr : list A) (x : A) : list A := arr ++ [x].

(** Start position computed by [Array.prototype.splice]: a negative
    [start] counts from the end and is clamped at 0, a positive one is
    clamped at the length. *)
Definition splice_start (len start : Z) : Z :=
  if decide (start < 0) then Z.max (len + start) 0 else Z.min start len.

(** Number of elements [splice] actually removes. *)
Definition splice_count (len actualStart deleteCount : Z) : Z :=
  Z.min (Z.max deleteCount 0) (len - actualStart).

(** [arr.splice(start, deleteCount)]: the array left behind. *)
Definition splice {A} (arr : list A) (start deleteCount : Z) : list A :=
  let len := Z.of_nat (length arr) in
  let s := splice_start len start in
  let k := splice_count len s deleteCount in
  take (Z.to_nat s) arr ++ drop (Z.to_nat (s + k)) arr.

End JS.

(** ** Data model *)

(** A file of a room: [{ name, content }]. *)
Record File := { name : string; content : string }.

(** The properties a plain JS object inherits from [Object.prototype]
    (ECMAScript, Annex B included).  Reading one of these names on a
    plain object that has no own property of that name yields the
    inherited value: a function, or [Object.prototype] itself for
    ["__proto__"].  Both are truthy, have no integer-indexed elements and
    no [push] or [splice]. *)
Inductive Inherited := inherited_function | inherited_prototype.

Definition object_prototype_functions : list string :=
  [ "constructor"; "hasOwnProperty"; "isPrototypeOf"; "propertyIsEnumerable";
    "toLocaleString"; "toString"; "valueOf"; "__defineGetter__";
    "__defineSetter__"; "__lookupGetter__"; "__lookupSetter__" ]%string.

Definition object_prototype (key : string) : option Inherited :=
  if decide (key = "__proto__"%string) then Some inherited_prototype
  else if decide (key ∈ object_prototype_functions) then Some inherited_function
  else None.

(** What [roomsFiles[roomId]] is when it is not [undefined]: the room's
    array, or a value inherited from [Object.prototype]. *)
Inductive RoomValue :=
| files_of (fs : list File)
| inherited_value (v : Inherited).

(** The property read [roomsFiles[roomId]]: an own property first, then
    the prototype. *)
Definition read_files (rf : gmap string (list File)) (roomId : string)
    : option RoomValue :=
  match rf !! roomId with
  | Some fs => Some (files_of fs)
  | None => inherited_value <$> object_prototype roomId
  end.

(** A value of [userSocketMap]: [{ username, roomId }]. *)
Record User := { username : string; roomId : string }.

(** A roster entry built by the [map] of lines 85-88 and 146-149:
    [{ socketId, username }].  The second field is [clientName] here
    because [username] already names the projection of [User]. *)
Record Client := { socketId : string; clientName : string }.

#[global] Instance File_eq_dec : EqDecision File.
Proof. solve_decision. Defined.
#[global] Instance User_eq_dec : EqDecision User.
Proof. solve_decision. Defined.
#[global] Instance Client_eq_dec : EqDecision Client.
Proof. solve_decision. Defined.

Definition set_content (code : string) (f : File) : File :=
  {| name := name f; content := code |}.

Definition set_name (newName : string) (f : File) : File :=
  {| name := newName; content := content f |}.

(** The file a room is seeded with on first join (line 80). *)
Definition default_file : File := {| name := "main.py"; content := "" |}.

(** The server's mutable state: the two module-level stores of lines
    23-24 and the adapter's room membership. *)
Record Server := {
  userSocketMap : gmap string User;
  roomsFiles : gmap string (list File);
  rooms : gmap string (list string)
}.

Definition initial : Server :=
  {| userSocketMap := ∅; roomsFiles := ∅; rooms := ∅ |}.

(** ** Outgoing traffic *)

(** The three ways the handlers address an emit. *)
Inductive Audience :=
| ToSocket (socket : string)                    (* socket.emit(...) *)
| ToRoom (room : string)                        (* io.to(room).emit(...) *)
| ToRoomExcept (room : string) (socket : string) (* socket.to(room).emit(...) *).

(** Server-to-client messages, named as on the wire. *)
Inductive Message :=
| initialize_files (files : option RoomValue)
| joined (clients : list Client)
| code_change (code : string) (fileIndex : Z)
| cursor_change (username : string) (cursor : string)
| chat_message (username message timestamp : string)
| file_added (file : File) (fileIndex : Z)
| file_renamed (fileIndex : Z) (newName : string)
| file_deleted (fileIndex : Z)
| disconnected (socketId : string) (clients : list Client).

(** One emit, with the connections the transport delivers it to. *)
Record Emission := {
  audience : Audience;
  receivers : list string;
  message : Message
}.

(** [io.sockets.adapter.rooms.get(room) || []], spread into an array. *)
Definition members (s : Server) (room : string) : list string :=
  default [] (rooms s !! room).

(** Who receives an emit, given the membership at the time of the call.
    [socket.to(room)] broadcasts to [room] except the room named by the
    sender's id: the adapter leaves out every member of that room, which
    is the sender and whoever joined a room of that name. *)
Definition deliver (s : Server) (a : Audience) : list string :=
  match a with
  | ToSocket socket => [socket]
  | ToRoom room => members s room
  | ToRoomExcept room socket =>
      filter (λ id, id ∉ members s socket) (members s room)
  end.

(** ** Handlers as state transformers that log their emits

    The first component of a result is [None] when the handler threw; the
    state and the emits are those reached before the throw. *)

Definition Handler (A : Type) : Type :=
  Server → option A * Server * list Emission.

#[global] Instance Handler_ret : MRet Handler := λ _ x s, (Some x, s, []).

#[global] Instance Handler_bind : MBind Handler := λ _ _ k m s,
  let '(x, s1, out1) := m s in
  match x with
  | Some v => let '(y, s2, out2) := k v s1 in (y, s2, out1 ++ out2)
  | None => (None, s1, out1)
  end.

(** An uncaught [TypeError]. *)
Definition throw {A} : Handler A := λ s, (None, s, []).

Definition get_state : Handler Server := λ s, (Some s, s, []).

Definition emit (a : Audience) (m : Message) : Handler unit := λ s,
  (Some (), s, [{| audience := a; receivers := deliver s a; message := m |}]).

Definition put_user (id : string) (u : User) : Handler unit := λ s,
  (Some (), {| userSocketMap := <[id := u]> (userSocketMap s);
          roomsFiles := roomsFiles s; rooms := rooms s |}, []).

Definition delete_user (id : string) : Handler unit := λ s,
  (Some (), {| userSocketMap := delete id (userSocketMap s);
          roomsFiles := roomsFiles s; rooms := rooms s |}, []).

Definition put_files (room : string) (fs : list File) : Handler unit := λ s,
  (Some (), {| userSocketMap := userSocketMap s;
          roomsFiles := <[room := fs]> (roomsFiles s); rooms := rooms s |}, []).

Definition get_user (id : string) : Handler (option User) := λ s,
  (Some (userSocketMap s !! id), s, []).

Definition get_files (room : string) : Handler (option RoomValue) := λ s,
  (Some (read_files (roomsFiles s) room), s, []).

Definition when (b : bool) (h : Handler unit) : Handler unit :=
  if b then h else mret ().

Definition state_of {A} (r : A * Server * list Emission) : Server := r.1.2.
Definition emits_of {A} (r : A * Server * list Emission) : list Emission := r.2.

(** Whether the handler ran to its end. *)
Definition returned {A} (r : option A * Server * list Emission) : bool :=
  match r.1.1 with Some _ => true | None => false end.

(** ** Transport *)

(** Adding to a JS [Set]: no effect when already present. *)
Definition set_add (id : string) (ms : list string) : list string :=
  if decide (id ∈ ms) then ms else ms ++ [id].

(** [socket.join(room)]. *)
Definition socket_join (socket room : string) : Handler unit := λ s,
  (Some (), {| userSocketMap := userSocketMap s; roomsFiles := roomsFiles s;
          rooms := <[room := set_add socket (members s room)]> (rooms s) |}, []).

(** What the adapter does to one room when a socket leaves it: the id is
    taken out of the set and an emptied room is dropped from the map. *)
Definition leave_room (socket : string) (ms : list string) : option (list string) :=
  match filter (λ id, id ≠ socket) ms with
  | [] => None
  | ms' => Some ms'
  end.

(** The socket leaves every room; socket.io does this before it fires
    the [disconnect] event on the socket. *)
Definition leave_all (socket : string) : Handler unit := λ s,
  (Some (), {| userSocketMap := userSocketMap s; roomsFiles := roomsFiles s;
          rooms := omap (leave_room socket) (rooms s) |}, []).

(** ** The socket handlers of lines 75-154 *)

(** The roster expression of lines 85-88 and 146-149. *)
Definition roster (s : Server) (room : string) : list Client :=
  (λ id, {| socketId := id;
            clientName := JS.or_else (username <$> userSocketMap s !! id) "Anonymous" |})
    <$> members s room.

Definition get_roster (room : string) : Handler (list Client) := λ s,
  (Some (roster s room), s, []).

(** Lines 79-81: seed the room when [roomsFiles[roomId]] is falsy. *)
Definition ensureRoom (roomId : string) : Handler unit :=
  files ← get_files roomId;
  when (negb (JS.truthy_ref files)) (put_files roomId [default_file]).

(** [socket.on("join", ...)], lines 75-92. *)
Definition on_join (socket roomId username : string) : Handler unit :=
  put_user socket {| username := username; roomId := roomId |};;
  socket_join socket roomId;;
  ensureRoom roomId;;
  files ← get_files roomId;
  emit (ToSocket socket) (initialize_files files);;
  clients ← get_roster roomId;
  emit (ToRoom roomId) (joined clients).

(** The guard shared by code-change and rename-file:
    [roomsFiles[roomId] && roomsFiles[roomId][fileIndex]].  An inherited
    value has no element at an integer index. *)
Definition file_at (s : Server) (roomId : string) (fileIndex : Z) : option File :=
  v ← read_files (roomsFiles s) roomId;
  match v with
  | files_of fs => JS.array_get fs fileIndex
  | inherited_value _ => None
  end.

(** [roomsFiles[roomId][fileIndex].field = v], reached only under the
    guard, where the index is a position of the array. *)
Definition update_file (roomId : string) (fileIndex : Z) (upd : File → File)
    : Handler unit := λ s,
  (Some (), {| userSocketMap := userSocketMap s;
          roomsFiles := alter (alter upd (Z.to_nat fileIndex)) roomId (roomsFiles s);
          rooms := rooms s |}, []).

(** [socket.on("code-change", ...)], lines 95-100. *)
Definition on_code_change (socket roomId code : string) (fileIndex : Z)
    : Handler unit :=
  s ← get_state;
  when (JS.truthy_ref (file_at s roomId fileIndex))
       (update_file roomId fileIndex (set_content code));;
  emit (ToRoomExcept roomId socket) (code_change code fileIndex).

(** [socket.on("cursor-change", ...)], lines 103-105. *)
Definition on_cursor_change (socket roomId username cursor : string)
    : Handler unit :=
  emit (ToRoomExcept roomId socket) (cursor_change username cursor).

(** [socket.on("chat-message", ...)], lines 108-110. *)
Definition on_chat_message (socket roomId username message timestamp : string)
    : Handler unit :=
  emit (ToRoom roomId) (chat_message username message timestamp).

(** [socket.on("add-file", ...)], lines 113-119.  Line 115 throws when
    [roomsFiles[roomId]] is not an array: it has no [push]. *)
Definition on_add_file (socket roomId : string) (file : File) : Handler unit :=
  files ← get_files roomId;
  when (negb (JS.truthy_ref files)) (put_files roomId []);;
  files ← get_files roomId;
  match files with
  | Some (files_of fs) =>
      put_files roomId (JS.push fs file);;
      let fileIndex := Z.of_nat (length (JS.push fs file)) - 1 in
      emit (ToRoom roomId) (file_added file fileIndex)
  | _ => throw
  end.

(** [socket.on("rename-file", ...)], lines 122-128. *)
Definition on_rename_file (socket roomId : string) (fileIndex : Z)
    (newName : string) : Handler unit :=
  s ← get_state;
  when (JS.truthy_ref (file_at s roomId fileIndex))
       (update_file roomId fileIndex (set_name newName);;
        emit (ToRoom roomId) (file_renamed fileIndex newName)).

(** [socket.on("delete-file", ...)], lines 131-138.  Line 134 throws
    when [roomsFiles[roomId]] is truthy but not an array: it has no
    [splice]. *)
Definition on_delete_file (socket roomId : string) (fileIndex : Z)
    : Handler unit :=
  files ← get_files roomId;
  match files with
  | Some (files_of fs) =>
      put_files roomId (JS.splice fs fileIndex 1);;
      emit (ToRoom roomId) (file_deleted fileIndex)
  | Some (inherited_value _) => throw
  | None => mret ()
  end.

(** [socket.on("disconnect", ...)], lines 141-154.  The destructuring of
    line 142 yields [undefined] when the socket has no entry. *)
Definition on_disconnect (socket : string) : Handler unit :=
  u ← get_user socket;
  let room := roomId <$> u in
  delete_user socket;;
  match room with
  | Some r =>
      when (JS.truthy_string r)
           (clients ← get_roster r;
            emit (ToRoom r) (disconnected socket clients))
  | None => mret ()
  end.

(** ** Events and runs *)

(** What a connection can make the server do. *)
Inductive Event :=
| Connection
| Join (roomId username : string)
| CodeChange (roomId code : string) (fileIndex : Z)
| CursorChange (roomId username cursor : string)
| ChatMessage (roomId username message timestamp : string)
| AddFile (roomId : string) (file : File)
| RenameFile (roomId : string) (fileIndex : Z) (newName : string)
| DeleteFile (roomId : string) (fileIndex : Z)
| Disconnect.

(** One event of connection [socket].  A new socket is put in the room
    named by its own id, and a closing socket has left all its rooms, by
    the time the application sees the event. *)
Definition handle (socket : string) (e : Event) : Handler unit :=
  match e with
  | Connection => socket_join socket socket
  | Join r u => on_join socket r u
  | CodeChange r c i => on_code_change socket r c i
  | CursorChange r u c => on_cursor_change socket r u c
  | ChatMessage r u m t => on_chat_message socket r u m t
  | AddFile r f => on_add_file socket r f
  | RenameFile r i n => on_rename_file socket r i n
  | DeleteFile r i => on_delete_file socket r i
  | Disconnect => leave_all socket;; on_disconnect socket
  end.

(** The server run on a sequence of events, one at a time and each to
    completion; the emits of all of them in order.  A handler that throws
    ends the process, and the events after it are not handled. *)
Fixpoint run (evs : list (string * Event)) : Handler unit :=
  match evs with
  | [] => mret ()
  | (socket, e) :: rest => handle socket e;; run rest
  end.

Definition is_delete (e : Event) : bool :=
  match e with DeleteFile _ _ => true | _ => false end.


(** A sequence of joins to one room, one per (socket, username) pair. *)
Definition joins_of (room : string) (js : list (string * string))
    : list (string * Event) :=
  (λ j, (j.1, Join room j.2)) <$> js.

(** The roster carried by a message, for the two messages that carry one. *)
Definition roster_of (m : Message) : option (list Client) :=
  match m with
  | joined clients => Some clients
  | disconnected _ clients => Some clients
  | _ => None
  end.


(** ** States named in the statements below *)

(** The file store after lines 79-81. *)
Definition ensured (room : string) (rf : gmap string (list File))
    : gmap string (list File) :=
  match read_files rf room with
  | Some _ => rf
  | None => <[room := [default_file]]> rf
  end.




(** The state a join leaves behind. *)
Definition after_join (socket room name : string) (s : Server) : Server :=
  {| userSocketMap :=
       <[socket := {| username := name; roomId := room |}]> (userSocketMap s);
     roomsFiles := ensured room (roomsFiles s);
     rooms := <[room := set_add socket (members s room)]> (rooms s) |}.

(** The state the application sees when a socket's disconnect fires. *)
Definition after_leave (socket : string) (s : Server) : Server :=
  {| userSocketMap := userSocketMap s; roomsFiles := roomsFiles s;
     rooms := omap (leave_room socket) (rooms s) |}.

(** ** Statements about events in general *)

(** The room an event's payload names. *)
Definition room_of (e : Event) : option string :=
  match e with
  | Join r _ | CodeChange r _ _ | CursorChange r _ _ | ChatMessage r _ _ _
  | AddFile r _ | RenameFile r _ _ | DeleteFile r _ => Some r
  | Connection | Disconnect => None
  end.

(** The event's payload names this room. *)
Definition names_room (room : string) (e : Event) : bool :=
  bool_decide (room_of e = Some room).

(** The room an event's emits are addressed to: the payload's room, and
    for a disconnect the room recorded for the socket (line 142). *)
Definition addressed_room (s : Server) (socket : string) (e : Event)
    : option string :=
  match e with
  | Disconnect => roomId <$> userSocketMap s !! socket
  | _ => room_of e
  end.

(** What a guarded field update amounts to on one room's array: the
    element at [i] is rewritten when [i] is a position of the array, and
    nothing happens otherwise. *)
Definition edit_at (upd : File → File) (i : Z) (fs : list File) : list File :=
  if decide (0 ≤ i) then alter upd (Z.to_nat i) fs else fs.

(** Every registered connection is in the group of its recorded room. *)
Definition registered_in_group (s : Server) : Prop :=
  ∀ id u, userSocketMap s !! id = Some u → id ∈ members s (roomId u).

(** ** The two HTTP endpoints (lines 36-66 and 160-195)

    The third-party services are arguments of the handlers: a call that
    throws or rejects is [None]. *)

Module Http.

(** A JS string as its UTF-16 code units; the message of a chat request
    and the text of a completion are arbitrary Unicode text. *)
Definition Text : Type := list N.

(** The code units of a constant of the source that is plain ASCII. *)
Definition ascii_text (s : string) : Text :=
  Ascii.N_of_ascii <$> String.list_ascii_of_string s.

(** A code unit that [String.prototype.trim] strips: the white space
    (TAB, VT, FF, U+FEFF and the space separators U+0020, U+00A0, U+1680,
    U+2000 to U+200A, U+202F, U+205F, U+3000) and the line terminators
    (LF, CR, U+2028, U+2029) of ECMAScript. *)
Definition is_white_space (c : N) : bool :=
  bool_decide (c ∈ [ 9; 10; 11; 12; 13; 32; 160; 5760; 8232; 8233; 8239;
                     8287; 12288; 65279 ]%N)
  || ((8192 <=? c)%N && (c <=? 8202)%N).

Fixpoint trim_start (t : Text) : Text :=
  match t with
  | [] => []
  | c :: rest => if is_white_space c then trim_start rest else t
  end.

Fixpoint trim_end (t : Text) : Text :=
  match t with
  | [] => []
  | c :: rest =>
      match trim_end rest with
      | [] => if is_white_space c then [] else [c]
      | u => c :: u
      end
  end.

(** [t.trim()]. *)
Definition trim (t : Text) : Text := trim_end (trim_start t).

(** [t === ""]. *)
Definition is_empty (t : Text) : bool :=
  match t with [] => true | _ => false end.

(** Every code unit of the text is stripped by [trim]. *)
Definition all_white_space (t : Text) : bool := forallb is_white_space t.

(** The text starts, respectively ends, with a code unit that [trim]
    strips. *)
Definition starts_white (t : Text) : bool :=
  match t with
  | [] => false
  | c :: _ => is_white_space c
  end.

Fixpoint ends_white (t : Text) : bool :=
  match t with
  | [] => false
  | [c] => is_white_space c
  | _ :: rest => ends_white rest
  end.

(** [a || b] where both sides may be [undefined]. *)
Definition or_undefined (a b : option string) : option string :=
  match a with
  | Some x => if JS.truthy_string x then Some x else b
  | None => b
  end.

(** The JSON body of a response: [{ reply }] or [{ output }]. *)
Inductive Body :=
| reply (text : Text)
| output (text : string).

Record Response := { status : Z; body : Body }.

(** *** POST /chat *)

(** One entry of the [messages] array: [{ role, content }]. *)
Record Turn := { role : string; content : Text }.

(** The argument of [openai.chat.completions.create]; the temperature is
    kept in tenths. *)
Record ChatRequest := {
  model : string;
  messages : list Turn;
  temperature_tenths : Z
}.

(** What the handler reads of a completion: for each element of
    [choices], its [message.content], [None] when that is [null] or
    missing. *)
Definition Completion : Type := list (option Text).

Definition system_prompt : Text :=
  ascii_text "You are an AI coding assistant that helps users debug, explain, and write code. Keep replies short, clear, and relevant.".

Definition enter_a_message : Text := ascii_text "Please enter a message.".

(** Line 63; the text opens with U+26A0 U+FE0F. *)
Definition assistant_unavailable : Text :=
  [ 9888; 65039 ]%N ++
  ascii_text " AI Assistant is currently unavailable. Please try again later.".

(** Lines 45-56. *)
Definition chat_request (message : Text) : ChatRequest :=
  {| model := "gpt-4o-mini";
     messages := [ {| role := "system"; content := system_prompt |};
                   {| role := "user"; content := message |} ];
     temperature_tenths := 7 |}.

(** The test of line 40: [!message || message.trim() === ""]. *)
Definition blank (message : option Text) : bool :=
  match message with
  | Some m => is_empty m || is_empty (trim m)
  | None => true
  end.

(** Line 58: [completion.choices[0].message.content.trim()]; [None] when
    the property chain throws (no first choice, or a null content). *)
Definition first_reply (c : Completion) : option Text :=
  choice ← c !! 0%nat; text ← choice; Some (trim text).

(** The handler of lines 36-66; [message] is [req.body.message], a string
    when present. *)
Definition post_chat (create : ChatRequest → option Completion)
    (message : option Text) : Response :=
  match message with
  | Some m =>
      if blank message
      then {| status := 400; body := reply enter_a_message |}
      else match create (chat_request m) ≫= first_reply with
           | Some aiReply => {| status := 200; body := reply aiReply |}
           | None => {| status := 500; body := reply assistant_unavailable |}
           end
  | None => {| status := 400; body := reply enter_a_message |}
  end.

(** *** POST /run *)

(** Lines 163-166. *)
Definition versionMap : gmap string string :=
  list_to_map
    [ ("python", "4"); ("java", "4"); ("cpp", "5"); ("c", "5");
      ("javascript", "4"); ("php", "4"); ("ruby", "3"); ("go", "3");
      ("csharp", "3"); ("swift", "4"); ("kotlin", "4") ]%string.

(** Lines 168-171. *)
Definition langMap : gmap string string :=
  list_to_map
    [ ("python", "python3"); ("java", "java"); ("cpp", "cpp17"); ("c", "c");
      ("javascript", "nodejs"); ("php", "php"); ("ruby", "ruby"); ("go", "go");
      ("csharp", "csharp"); ("swift", "swift"); ("kotlin", "kotlin") ]%string.

(** A field of the JSON body as [JSON.stringify] writes it: a string; or
    nothing at all, when the value is a function; or [{}], when the value
    is [Object.prototype]. *)
Inductive Field :=
| field_string (text : string)
| field_omitted
| field_object.

(** [table[key] || d] on one of the two plain-object tables, as it ends
    up in the body: a key the table lacks reads an inherited property
    when it names one, which is truthy, so the default does not apply. *)
Definition table_field (table : gmap string string) (key d : string) : Field :=
  match table !! key with
  | Some v => field_string (if JS.truthy_string v then v else d)
  | None =>
      match object_prototype key with
      | Some inherited_function => field_omitted
      | Some inherited_prototype => field_object
      | None => field_string d
      end
  end.

(** The JSON sent to the execution service (lines 180-186); the two
    credentials come from the environment and may be unset. *)
Record RunRequest := {
  clientId : option string;
  clientSecret : option string;
  script : string;
  language : Field;
  versionIndex : Field
}.

(** What the handler reads of the service's answer. *)
Record RunData := { data_output : option string; data_error : option string }.

Definition run_request (env_clientId env_clientSecret : option string)
    (lang code : string) : RunRequest :=
  {| clientId := env_clientId;
     clientSecret := env_clientSecret;
     script := code;
     language := table_field langMap lang "python3";
     versionIndex := table_field versionMap lang "4" |}.

(** The handler of lines 160-195; [lang] and [code] are the two fields of
    the request body, [fetch] is the call and the decoding of its answer. *)
Definition post_run (fetch : RunRequest → option RunData)
    (env_clientId env_clientSecret : option string) (lang code : string)
    : Response :=
  match fetch (run_request env_clientId env_clientSecret lang code) with
  | Some data =>
      {| status := 200;
         body := output (JS.or_else
                           (or_undefined (data_output data) (data_error data))
                           "No output") |}
  | None => {| status := 200; body := output "Error running code" |}
  end.

End Http.

(** ** JavaScript array facts *)

Section ArrayFacts.
Context {A : Type}.
Implicit Types (arr : list A) (i j : Z).

Lemma array_get_Some arr i x :
  JS.array_get arr i = Some x ↔ 0 ≤ i ∧ arr !! Z.to_nat i = Some x.
Proof.
  unfold JS.array_get. case_decide.
  - split; [by intros ->|by intros [_ ?]].
  - split; [done|]. intros [? _]. lia.
Qed.

Lemma array_get_None arr i :
  JS.array_get arr i = None ↔ i < 0 ∨ Z.of_nat (length arr) ≤ i.
Proof.
  unfold JS.array_get. case_decide.
  - rewrite lookup_ge_None. lia.
  - split; [lia|done].
Qed.

(** Deleting one element at a position of the array. *)
Lemma splice_one_in_range arr i :
  0 ≤ i < Z.of_nat (length arr) →
  JS.splice arr i 1 = take (Z.to_nat i) arr ++ drop (S (Z.to_nat i)) arr.
Proof.
  intros Hi. unfold JS.splice, JS.splice_start, JS.splice_count.
  case_decide; [lia|].
  replace (Z.min i (Z.of_nat (length arr))) with i by lia.
  replace (Z.min (Z.max 1 0) (Z.of_nat (length arr) - i)) with 1 by lia.
  by replace (Z.to_nat (i + 1)) with (S (Z.to_nat i)) by lia.
Qed.

(** At or past the end nothing is removed. *)
Lemma splice_one_past_end arr i :
  Z.of_nat (length arr) ≤ i → JS.splice arr i 1 = arr.
Proof.
  intros Hi. unfold JS.splice, JS.splice_start, JS.splice_count.
  case_decide; [lia|].
  replace (Z.min i (Z.of_nat (length arr))) with (Z.of_nat (length arr)) by lia.
  replace (Z.min (Z.max 1 0) (Z.of_nat (length arr) - Z.of_nat (length arr)))
    with 0 by lia.
  rewrite Z.add_0_r, Nat2Z.id, firstn_all, drop_ge, app_nil_r; [done|lia].
Qed.

(** [splice] with count 1 never removes more than one element. *)
Lemma splice_one_length arr i :
  (length arr - 1 ≤ length (JS.splice arr i 1) ≤ length arr)%nat.
Proof.
  unfold JS.splice, JS.splice_start, JS.splice_count.
  rewrite length_app, length_take, length_drop.
  case_decide; lia.
Qed.

End ArrayFacts.

(** ** What each handler does to the state and what it emits *)

Section HandlerFacts.
Implicit Types (s : Server) (socket room : string).

Lemma set_add_elem id ms : id ∈ set_add id ms.
Proof. unfold set_add. case_decide; set_solver. Qed.

Lemma read_files_array (rf : gmap string (list File)) room fs :
  read_files rf room = Some (files_of fs) ↔ rf !! room = Some fs.
Proof.
  unfold read_files. destruct (rf !! room) as [fs0|].
  - split; intros [= ->]; done.
  - destruct (object_prototype room); simpl; split; discriminate.
Qed.

Lemma read_files_inherited (rf : gmap string (list File)) room v :
  read_files rf room = Some (inherited_value v) ↔
  rf !! room = None ∧ object_prototype room = Some v.
Proof.
  unfold read_files. destruct (rf !! room) as [fs0|].
  - split; [discriminate|]. by intros [? _].
  - destruct (object_prototype room) as [v0|]; simpl.
    + split; [by intros [= ->]|]. by intros [_ [= ->]].
    + split; [discriminate|]. by intros [_ ?].
Qed.

Lemma read_files_None (rf : gmap string (list File)) room :
  read_files rf room = None ↔ rf !! room = None ∧ object_prototype room = None.
Proof.
  unfold read_files. destruct (rf !! room) as [fs0|].
  - split; [discriminate|]. by intros [? _].
  - destruct (object_prototype room); simpl; split; try done.
    by intros [_ ?].
Qed.

Lemma file_at_Some s room i f :
  file_at s room i = Some f ↔
  ∃ fs, roomsFiles s !! room = Some fs ∧ 0 ≤ i ∧ fs !! Z.to_nat i = Some f.
Proof.
  unfold file_at, read_files.
  destruct (roomsFiles s !! room) as [fs|]; simpl.
  - rewrite array_get_Some. split.
    + intros [? ?]. by exists fs.
    + intros (fs' & [= <-] & ? & ?). done.
  - destruct (object_prototype room); simpl;
      (split; [done|]; by intros (? & ? & _)).
Qed.

Lemma file_at_None s room i :
  file_at s room i = None ↔
  roomsFiles s !! room = None ∨
  ∃ fs, roomsFiles s !! room = Some fs ∧ (i < 0 ∨ Z.of_nat (length fs) ≤ i).
Proof.
  unfold file_at, read_files.
  destruct (roomsFiles s !! room) as [fs|]; simpl.
  - rewrite array_get_None. split.
    + intros ?. right. by exists fs.
    + intros [?|(fs' & [= <-] & ?)]; done.
  - destruct (object_prototype room); simpl; (split; [by left|done]).
Qed.

Lemma ensureRoom_run room s :
  ensureRoom room s =
  (Some (), {| userSocketMap := userSocketMap s;
               roomsFiles := ensured room (roomsFiles s);
               rooms := rooms s |}, []).
Proof.
  unfold ensureRoom, ensured, mbind, Handler_bind, get_files, when, put_files.
  destruct s as [um rf rm]; simpl.
  destruct (read_files rf room); reflexivity.
Qed.

(** Seeding happens exactly for an id that is neither in the store nor
    an inherited name. *)
Lemma ensured_cases room (rf : gmap string (list File)) :
  ensured room rf =
  match rf !! room, object_prototype room with
  | None, None => <[room := [default_file]]> rf
  | _, _ => rf
  end.
Proof.
  unfold ensured, read_files.
  destruct (rf !! room); [done|]. by destruct (object_prototype room).
Qed.

Lemma ensured_lookup room (rf : gmap string (list File)) :
  object_prototype room = None →
  ensured room rf !! room =
  Some (match rf !! room with Some fs => fs | None => [default_file] end).
Proof.
  intros Hp. rewrite ensured_cases, Hp.
  destruct (rf !! room) eqn:E; [done|]. by rewrite lookup_insert_eq.
Qed.

Lemma ensured_lookup_own room (rf : gmap string (list File)) fs :
  rf !! room = Some fs → ensured room rf = rf.
Proof. intros H. by rewrite ensured_cases, H. Qed.

Lemma ensured_lookup_ne room room' (rf : gmap string (list File)) :
  room ≠ room' → ensured room rf !! room' = rf !! room'.
Proof.
  intros Hne. rewrite ensured_cases.
  destruct (rf !! room); [done|]. destruct (object_prototype room); [done|].
  by rewrite lookup_insert_ne.
Qed.

(** After lines 79-81 [roomsFiles[roomId]] is never [undefined]. *)
Lemma read_files_ensured room (rf : gmap string (list File)) :
  is_Some (read_files (ensured room rf) room).
Proof.
  rewrite ensured_cases. unfold read_files.
  destruct (rf !! room) eqn:E; [rewrite E; eauto|].
  destruct (object_prototype room) eqn:Hp.
  - rewrite E; simpl. eauto.
  - rewrite lookup_insert_eq. eauto.
Qed.

Lemma on_join_run socket room name s :
  on_join socket room name s =
  let s' := after_join socket room name s in
  (Some (), s',
   [ {| audience := ToSocket socket; receivers := [socket];
        message := initialize_files (read_files (roomsFiles s') room) |};
     {| audience := ToRoom room; receivers := members s' room;
        message := joined (roster s' room) |} ]).
Proof.
  unfold on_join, after_join.
  unfold mbind at 1 2 3, Handler_bind.
  simpl. rewrite ensureRoom_run. reflexivity.
Qed.

Lemma members_after_join socket room name s :
  members (after_join socket room name s) room =
  set_add socket (members s room).
Proof. unfold members at 1. simpl. by rewrite lookup_insert_eq. Qed.

Lemma on_code_change_run socket room code i s :
  on_code_change socket room code i s =
  (Some (),
   (if JS.truthy_ref (file_at s room i)
    then {| userSocketMap := userSocketMap s;
            roomsFiles := alter (alter (set_content code) (Z.to_nat i))
                                room (roomsFiles s);
            rooms := rooms s |}
    else s),
   [ {| audience := ToRoomExcept room socket;
        receivers := filter (λ id, id ∉ members s socket) (members s room);
        message := code_change code i |} ]).
Proof.
  unfold on_code_change, mbind, Handler_bind, get_state, when, emit.
  destruct (JS.truthy_ref (file_at s room i)); reflexivity.
Qed.

Lemma on_chat_message_run socket room name msg ts s :
  on_chat_message socket room name msg ts s =
  (Some (), s, [ {| audience := ToRoom room; receivers := members s room;
                    message := chat_message name msg ts |} ]).
Proof. reflexivity. Qed.

Lemma on_cursor_change_run socket room name cursor s :
  on_cursor_change socket room name cursor s =
  (Some (), s,
   [ {| audience := ToRoomExcept room socket;
        receivers := filter (λ id, id ∉ members s socket) (members s room);
        message := cursor_change name cursor |} ]).
Proof. reflexivity. Qed.

(** Add-file returns unless the id reads as an inherited value, in which
    case it throws before changing or emitting anything. *)
Lemma on_add_file_run socket room file s :
  on_add_file socket room file s =
  match read_files (roomsFiles s) room with
  | Some (inherited_value _) => (None, s, [])
  | _ =>
      let fs := default [] (roomsFiles s !! room) in
      (Some (), {| userSocketMap := userSocketMap s;
                   roomsFiles := <[room := fs ++ [file]]> (roomsFiles s);
                   rooms := rooms s |},
       [ {| audience := ToRoom room; receivers := members s room;
            message := file_added file (Z.of_nat (length fs)) |} ])
  end.
Proof.
  unfold on_add_file, mbind, Handler_bind, get_files, when, put_files, emit,
    throw, JS.push, read_files.
  destruct s as [um rf rm]; simpl.
  destruct (rf !! room) as [fs|] eqn:E; simpl.
  - rewrite E; simpl. rewrite length_app; simpl. unfold members; simpl.
    repeat f_equal. lia.
  - destruct (object_prototype room) eqn:Hp; simpl.
    + rewrite E; simpl. rewrite ?Hp. reflexivity.
    + rewrite !lookup_insert_eq; simpl. rewrite !insert_insert_eq.
      reflexivity.
Qed.

Lemma on_rename_file_run socket room i newName s :
  on_rename_file socket room i newName s =
  if JS.truthy_ref (file_at s room i)
  then (Some (), {| userSocketMap := userSocketMap s;
                    roomsFiles := alter (alter (set_name newName) (Z.to_nat i))
                                        room (roomsFiles s);
                    rooms := rooms s |},
        [ {| audience := ToRoom room; receivers := members s room;
             message := file_renamed i newName |} ])
  else (Some (), s, []).
Proof.
  unfold on_rename_file, mbind, Handler_bind, get_state, when.
  destruct (JS.truthy_ref (file_at s room i)); reflexivity.
Qed.

(** Delete-file splices and broadcasts when the store has the room,
    throws when the id reads as an inherited value, and does nothing
    otherwise. *)
Lemma on_delete_file_run socket room i s :
  on_delete_file socket room i s =
  match roomsFiles s !! room with
  | Some fs =>
      (Some (), {| userSocketMap := userSocketMap s;
                   roomsFiles := <[room := JS.splice fs i 1]> (roomsFiles s);
                   rooms := rooms s |},
       [ {| audience := ToRoom room; receivers := members s room;
            message := file_deleted i |} ])
  | None =>
      (match object_prototype room with Some _ => None | None => Some () end,
       s, [])
  end.
Proof.
  unfold on_delete_file, mbind, Handler_bind, get_files, read_files.
  destruct (roomsFiles s !! room); [reflexivity|].
  destruct (object_prototype room); reflexivity.
Qed.

Lemma on_disconnect_run socket s :
  on_disconnect socket s =
  let s' := {| userSocketMap := delete socket (userSocketMap s);
               roomsFiles := roomsFiles s; rooms := rooms s |} in
  match userSocketMap s !! socket with
  | Some u =>
      if JS.truthy_string (roomId u)
      then (Some (), s', [ {| audience := ToRoom (roomId u);
                              receivers := members s' (roomId u);
                              message := disconnected socket (roster s' (roomId u)) |} ])
      else (Some (), s', [])
  | None => (Some (), s', [])
  end.
Proof.
  unfold on_disconnect, mbind, Handler_bind, get_user, delete_user, when.
  destruct (userSocketMap s !! socket) as [u|]; simpl; [|done].
  destruct (JS.truthy_string (roomId u)); reflexivity.
Qed.

Lemma truthy_string_spec (x : string) :
  JS.truthy_string x = true ↔ x ≠ ""%string.
Proof.
  unfold JS.truthy_string. destruct (String.eqb_spec x ""); simpl.
  - split; [done|]. by intros [].
  - done.
Qed.

End HandlerFacts.

(** ** Rebroadcast audiences *)

(** The claim C4 as stated fails: a connection of the room that has also
    joined the room named by the sender's id is left out of a code-change
    rebroadcast although it is not the sender. *)
Lemma code_change_skips_joiner_of_sender_id_room :
  let s := state_of (run [ ("a", Connection); ("b", Connection);
                           ("a", Join "r1" "Alice"); ("b", Join "r1" "Bob");
                           ("b", Join "a" "Bob") ]%string initial) in
  members s "r1" = ["a"; "b"]%string ∧
  emits_of (handle "a" (CodeChange "r1" "print(1)" 0) s) =
    [ {| audience := ToRoomExcept "r1" "a"; receivers := [];
         message := code_change "print(1)" 0 |} ].
Proof. split; reflexivity. Qed.

(** C4 (amended). A code-change event produces one rebroadcast, delivered
    to exactly the connections of the room that are not in the group
    named by the sender's id: never to the sender, which is in that group
    once connected, and to every other connection of the room when that
    group holds the sender alone.  A chat-message event produces one
    broadcast carrying the username, message and timestamp of the input,
    delivered to exactly the connections of the room, so to the sender
    too when it is in the room. *)
Theorem code_change_skips_sender_group_chat_reaches_all
    (s : Server) (socket room code name msg ts : string) (i : Z) :
  (∃ rcv,
     emits_of (handle socket (CodeChange room code i) s) =
       [ {| audience := ToRoomExcept room socket; receivers := rcv;
            message := code_change code i |} ] ∧
     (socket ∈ members s socket → socket ∉ rcv) ∧
     (∀ id, id ∈ rcv ↔ id ∈ members s room ∧ id ∉ members s socket) ∧
     (members s socket = [socket] →
      ∀ id, id ∈ rcv ↔ id ∈ members s room ∧ id ≠ socket)) ∧
  (∃ rcv,
     emits_of (handle socket (ChatMessage room name msg ts) s) =
       [ {| audience := ToRoom room; receivers := rcv;
            message := chat_message name msg ts |} ] ∧
     (socket ∈ members s room → socket ∈ rcv) ∧
     (∀ id, id ∈ rcv ↔ id ∈ members s room)).
Proof.
  split.
  - exists (filter (λ id, id ∉ members s socket) (members s room)).
    unfold handle. rewrite on_code_change_run. split; [done|].
    split; [|split].
    + intros Hown. rewrite list_elem_of_filter. by intros [? _].
    + intros id. rewrite list_elem_of_filter. tauto.
    + intros Hown id. rewrite list_elem_of_filter, Hown.
      rewrite list_elem_of_singleton. tauto.
  - exists (members s room). unfold handle. rewrite on_chat_message_run.
    split; [done|]. split; [done|]. done.
Qed.

Lemma code_change_skips_sender_group_chat_reaches_all_witness :
  let s := state_of (run [ ("a", Connection); ("b", Connection);
                           ("a", Join "r1" "Alice"); ("b", Join "r1" "Bob") ]%string
                         initial) in
  ∃ rcv,
    emits_of (handle "a" (CodeChange "r1" "print(1)" 0) s) =
      [ {| audience := ToRoomExcept "r1" "a"; receivers := rcv;
           message := code_change "print(1)" 0 |} ] ∧
    "b"%string ∈ rcv ∧ ("a"%string ∉ rcv).
Proof.
  intros s.
  destruct (code_change_skips_sender_group_chat_reaches_all
              s "a" "r1" "print(1)" "Alice" "hi" "12:00" 0)
    as [(rcv & Hem & Hself & _ & Hothers) _].
  assert (members s "a" = ["a"]%string) as Hown by reflexivity.
  assert (members s "r1" = ["a"; "b"]%string) as Hroom by reflexivity.
  exists rcv. split; [exact Hem|]. split.
  - apply (Hothers Hown). rewrite Hroom. split; [|discriminate].
    apply elem_of_cons. right. apply elem_of_cons. by left.
  - apply Hself. rewrite Hown. apply elem_of_cons. by left.
Defined.

(** ** Join *)

(** The claim C6 as stated fails for a room id that names an inherited
    property: nothing is seeded, the store holds no file list for the
    room, and what the joiner is sent is the inherited value. *)
Lemma join_constructor_sends_no_file_list :
  let r := handle "a" (Join "constructor" "Alice") initial in
  emits_of r !! 0%nat =
    Some {| audience := ToSocket "a"; receivers := ["a"%string];
            message := initialize_files
                         (Some (inherited_value inherited_function)) |} ∧
  roomsFiles (state_of r) !! "constructor"%string = None.
Proof. split; reflexivity. Qed.

(** C6 (amended). The join handler emits exactly two events, in this
    order: the value of [roomsFiles[roomId]] to the joining connection
    alone, then the roster to the whole room; the roster and its audience
    both contain the joining connection.  For every room id that is not
    the name of an inherited property, the value sent is the room's file
    list as the store holds it after the join. *)
Theorem join_sends_files_then_roster
    (s : Server) (socket room name : string) :
  let r := handle socket (Join room name) s in
  ∃ v clients rcv,
    emits_of r =
      [ {| audience := ToSocket socket; receivers := [socket];
           message := initialize_files (Some v) |};
        {| audience := ToRoom room; receivers := rcv;
           message := joined clients |} ] ∧
    read_files (roomsFiles (state_of r)) room = Some v ∧
    (object_prototype room = None →
     ∃ files, v = files_of files ∧
              roomsFiles (state_of r) !! room = Some files) ∧
    clients = roster (state_of r) room ∧
    rcv = members (state_of r) room ∧
    socket ∈ rcv ∧
    socket ∈ (socketId <$> clients).
Proof.
  unfold handle. rewrite on_join_run. cbv zeta.
  unfold state_of, emits_of; simpl.
  destruct (read_files_ensured room (roomsFiles s)) as [v Hv].
  exists v. eexists _, _. rewrite Hv. split; [reflexivity|].
  split; [done|]. split.
  { intros Hp. pose proof (ensured_lookup room (roomsFiles s) Hp) as Hl.
    eexists. split; [|exact Hl].
    unfold read_files in Hv. rewrite Hl in Hv. by injection Hv as <-. }
  split; [done|]. split; [done|].
  rewrite members_after_join.
  split; [apply set_add_elem|].
  unfold roster. rewrite <- list_fmap_compose, members_after_join.
  apply (list_elem_of_fmap_2' _ _ socket); [apply set_add_elem|done].
Qed.

Lemma join_sends_files_then_roster_witness :
  ∃ files,
    roomsFiles (state_of (handle "a" (Join "r1" "Alice") initial)) !! "r1"%string
      = Some files.
Proof.
  destruct (join_sends_files_then_roster initial "a" "r1" "Alice")
    as (v & _ & _ & _ & _ & Hown & _).
  destruct Hown as (files & _ & Hfiles); [reflexivity|].
  exists files. exact Hfiles.
Defined.

(** ** File operations *)

(** The claim C10 as stated fails for a room id that names an inherited
    property: the handler throws at the push, no room is created and
    nothing is broadcast. *)
Lemma add_file_constructor_throws :
  let file := {| name := "util.py"; content := "" |} in
  let r := handle "a" (AddFile "constructor" file) initial in
  roomsFiles initial !! "constructor"%string = None ∧
  returned r = false ∧
  roomsFiles (state_of r) !! "constructor"%string = None ∧
  emits_of r = [].
Proof. repeat split; reflexivity. Qed.

(** C10 (amended). Add-file on a room id that has no room and is not the
    name of an inherited property creates the room holding just the
    pushed file, at index 0, without the default file, and broadcasts the
    file with index 0 to the room. *)
Theorem add_file_to_missing_room
    (s : Server) (socket room : string) (file : File) :
  object_prototype room = None →
  roomsFiles s !! room = None →
  let r := handle socket (AddFile room file) s in
  returned r = true ∧
  roomsFiles (state_of r) !! room = Some [file] ∧
  emits_of r =
    [ {| audience := ToRoom room; receivers := members s room;
         message := file_added file 0 |} ].
Proof.
  intros Hp Hnone. unfold handle. rewrite on_add_file_run.
  unfold read_files. rewrite Hnone, Hp. cbv zeta.
  unfold returned, state_of, emits_of; simpl.
  by rewrite lookup_insert_eq.
Qed.

Lemma add_file_to_missing_room_witness :
  roomsFiles initial !! "r1"%string = None ∧
  roomsFiles (state_of (handle "a" (AddFile "r1" {| name := "util.py"; content := "" |})
                               initial)) !! "r1"%string
    = Some [ {| name := "util.py"; content := "" |} ].
Proof.
  split; [reflexivity|].
  apply (add_file_to_missing_room initial "a" "r1"); reflexivity.
Defined.

(** C8. Rename-file with a valid room and index renames the file at that
    index, keeps its content, every other file, every other room, the
    registry and the membership, and broadcasts the index and the new name
    to the whole room; with an invalid room or index it changes nothing
    and emits nothing. *)
Theorem rename_file_valid_or_dropped
    (s : Server) (socket room newName : string) (i : Z) :
  let r := handle socket (RenameFile room i newName) s in
  (∀ fs f,
     roomsFiles s !! room = Some fs → 0 ≤ i → fs !! Z.to_nat i = Some f →
     ∃ fs',
       roomsFiles (state_of r) !! room = Some fs' ∧
       length fs' = length fs ∧
       fs' !! Z.to_nat i = Some {| name := newName; content := content f |} ∧
       (∀ j, j ≠ Z.to_nat i → fs' !! j = fs !! j) ∧
       (∀ room', room' ≠ room →
                 roomsFiles (state_of r) !! room' = roomsFiles s !! room') ∧
       userSocketMap (state_of r) = userSocketMap s ∧
       rooms (state_of r) = rooms s ∧
       emits_of r =
         [ {| audience := ToRoom room; receivers := members s room;
              message := file_renamed i newName |} ]) ∧
  ((roomsFiles s !! room = None ∨
    ∃ fs, roomsFiles s !! room = Some fs ∧ (i < 0 ∨ Z.of_nat (length fs) ≤ i)) →
   state_of r = s ∧ emits_of r = []).
Proof.
  unfold handle. rewrite on_rename_file_run. split.
  - intros fs f Hfs Hi Hf.
    assert (file_at s room i = Some f) as ->
      by (apply file_at_Some; eauto).
    unfold state_of, emits_of; simpl.
    exists (alter (set_name newName) (Z.to_nat i) fs).
    rewrite lookup_alter_eq, Hfs; simpl.
    split; [done|]. split; [apply length_alter|].
    split; [by rewrite list_lookup_alter_eq, Hf|].
    split; [intros j Hj; by apply list_lookup_alter_ne|].
    split; [intros room' Hne; by apply lookup_alter_ne|].
    done.
  - intros Hbad. apply file_at_None in Hbad. by rewrite Hbad.
Qed.

Lemma rename_file_valid_or_dropped_witness :
  let s := state_of (run [("a"%string, Join "r1" "Alice")] initial) in
  roomsFiles (state_of (handle "a" (RenameFile "r1" 0 "app.py") s)) !! "r1"%string
    = Some [ {| name := "app.py"; content := "" |} ] ∧
  emits_of (handle "a" (RenameFile "r1" 7 "app.py") s) = [].
Proof.
  intros s.
  pose proof (rename_file_valid_or_dropped s "a" "r1" "app.py" 0) as [Hok _].
  pose proof (rename_file_valid_or_dropped s "a" "r1" "app.py" 7) as [_ Hbad].
  split.
  - destruct (Hok [default_file] default_file) as (fs' & Hfs' & Hlen & Hi & _);
      [reflexivity|lia|reflexivity|].
    rewrite Hfs'. f_equal.
    destruct fs' as [|f0 [|]]; simpl in Hlen; try discriminate.
    simpl in Hi. by injection Hi as ->.
  - apply Hbad. right. exists [default_file]. split; [reflexivity|].
    right. simpl. lia.
Defined.



(** ** Runs *)

Section RunFacts.
Implicit Types (s : Server) (socket room : string) (e : Event).

Lemma run_cons socket e rest s :
  run ((socket, e) :: rest) s =
  if returned (handle socket e s)
  then ((run rest (state_of (handle socket e s))).1.1,
        state_of (run rest (state_of (handle socket e s))),
        emits_of (handle socket e s) ++
        emits_of (run rest (state_of (handle socket e s))))
  else (None, state_of (handle socket e s), emits_of (handle socket e s)).
Proof.
  simpl. unfold mbind, Handler_bind, returned, state_of, emits_of.
  destruct (handle socket e s) as [[[[]|] s1] o1]; simpl; [|done].
  by destruct (run rest s1) as [[v s2] o2].
Qed.

Lemma run_cons_state socket e rest s :
  state_of (run ((socket, e) :: rest) s) =
  if returned (handle socket e s)
  then state_of (run rest (state_of (handle socket e s)))
  else state_of (handle socket e s).
Proof. rewrite run_cons. by destruct (returned _). Qed.

Lemma run_cons_returned socket e rest s :
  returned (run ((socket, e) :: rest) s) =
  returned (handle socket e s) &&
  returned (run rest (state_of (handle socket e s))).
Proof. rewrite run_cons. by destruct (returned (handle socket e s)). Qed.

(** What holds initially and is kept by every handler holds at the end
    of every run, also of one that a throw cut short. *)
Lemma run_preserves (P : Server → Prop) :
  (∀ socket e s, P s → P (state_of (handle socket e s))) →
  ∀ evs s, P s → P (state_of (run evs s)).
Proof.
  intros Hstep evs. induction evs as [|[socket e] rest IH]; intros s Hs; [done|].
  rewrite run_cons_state. destruct (returned _); auto.
Qed.

Lemma handle_disconnect_run socket s :
  handle socket Disconnect s = on_disconnect socket (after_leave socket s).
Proof.
  unfold handle, mbind, Handler_bind, leave_all.
  fold (after_leave socket s).
  by destruct (on_disconnect socket (after_leave socket s)) as [[v s2] o2].
Qed.

Lemma members_after_leave socket room s :
  members (after_leave socket s) room =
  filter (λ id, id ≠ socket) (members s room).
Proof.
  unfold members; simpl. rewrite lookup_omap.
  destruct (rooms s !! room) as [ms|]; simpl; [|done].
  unfold leave_room. by destruct (filter _ ms).
Qed.

Lemma ensured_idemp room (rf : gmap string (list File)) :
  ensured room (ensured room rf) = ensured room rf.
Proof.
  unfold ensured at 1.
  by destruct (read_files_ensured room rf) as [v ->].
Qed.

(** Only add-file and delete-file can throw, and only on an id that the
    store does not hold and that names an inherited property. *)
Lemma handle_returned socket e s :
  returned (handle socket e s) =
  match e with
  | AddFile room _ | DeleteFile room _ =>
      match roomsFiles s !! room, object_prototype room with
      | None, Some _ => false
      | _, _ => true
      end
  | _ => true
  end.
Proof.
  destruct e; unfold handle.
  - reflexivity.
  - by rewrite on_join_run.
  - by rewrite on_code_change_run.
  - reflexivity.
  - reflexivity.
  - rewrite on_add_file_run. unfold read_files.
    destruct (roomsFiles s !! roomId0); [done|].
    by destruct (object_prototype roomId0).
  - rewrite on_rename_file_run. by destruct (JS.truthy_ref _).
  - rewrite on_delete_file_run.
    destruct (roomsFiles s !! roomId0); [done|].
    by destruct (object_prototype roomId0).
  - fold (handle socket Disconnect s).
    rewrite handle_disconnect_run, on_disconnect_run. cbv zeta.
    destruct (userSocketMap (after_leave socket s) !! socket) as [u|]; [|done].
    by destruct (JS.truthy_string (roomId u)).
Qed.

(** The file store is touched by four handlers only. *)
Lemma handle_roomsFiles socket e s :
  roomsFiles (state_of (handle socket e s)) =
  match e with
  | Join room _ => ensured room (roomsFiles s)
  | CodeChange room code i =>
      if JS.truthy_ref (file_at s room i)
      then alter (alter (set_content code) (Z.to_nat i)) room (roomsFiles s)
      else roomsFiles s
  | AddFile room file =>
      match roomsFiles s !! room, object_prototype room with
      | None, Some _ => roomsFiles s
      | _, _ =>
          <[room := default [] (roomsFiles s !! room) ++ [file]]> (roomsFiles s)
      end
  | RenameFile room i newName =>
      if JS.truthy_ref (file_at s room i)
      then alter (alter (set_name newName) (Z.to_nat i)) room (roomsFiles s)
      else roomsFiles s
  | DeleteFile room i =>
      match roomsFiles s !! room with
      | Some fs => <[room := JS.splice fs i 1]> (roomsFiles s)
      | None => roomsFiles s
      end
  | _ => roomsFiles s
  end.
Proof.
  destruct e; unfold handle.
  - reflexivity.
  - by rewrite on_join_run.
  - rewrite on_code_change_run.
    by destruct (JS.truthy_ref (file_at s roomId0 fileIndex)).
  - reflexivity.
  - reflexivity.
  - rewrite on_add_file_run. unfold read_files.
    destruct (roomsFiles s !! roomId0); [done|].
    by destruct (object_prototype roomId0).
  - rewrite on_rename_file_run.
    by destruct (JS.truthy_ref (file_at s roomId0 fileIndex)).
  - rewrite on_delete_file_run. by destruct (roomsFiles s !! roomId0).
  - fold (handle socket Disconnect s).
    rewrite handle_disconnect_run, on_disconnect_run. cbv zeta.
    destruct (userSocketMap (after_leave socket s) !! socket) as [u|]; [|done].
    by destruct (JS.truthy_string (roomId u)).
Qed.







End RunFacts.

(** ** Room creation *)

Lemma run_joins_roomsFiles (room : string) (js : list (string * string))
    (s : Server) :
  roomsFiles (state_of (run (joins_of room js) s)) =
  match js with
  | [] => roomsFiles s
  | _ => ensured room (roomsFiles s)
  end.
Proof.
  revert s. induction js as [|j rest IH]; intros s; [done|].
  unfold joins_of. rewrite fmap_cons. fold (joins_of room rest).
  rewrite run_cons_state, handle_returned, IH, handle_roomsFiles.
  destruct rest; [done|apply ensured_idemp].
Qed.

(** The claim C7 as stated fails for a room id that names an inherited
    property: line 79 reads a truthy inherited value, so a join to a room
    that does not exist seeds nothing. *)
Lemma join_toString_seeds_nothing :
  roomsFiles initial !! "toString"%string = None ∧
  roomsFiles (state_of (run (joins_of "toString" [("a", "Alice"); ("b", "Bob")]%string)
                            initial)) !! "toString"%string = None.
Proof. split; reflexivity. Qed.

(** C7 (amended). For a room id that is not the name of an inherited
    property: starting without the room, one or more joins to it (by any
    connections, under any names) leave that room with exactly the file
    "main.py" with empty content.  For every room id, joins to a room
    that already exists leave the whole file store unchanged, and the
    seeding step of the join handler is idempotent. *)
Theorem join_seeds_main_py_once
    (s : Server) (room : string) (js : list (string * string)) :
  (object_prototype room = None →
   roomsFiles s !! room = None → js ≠ [] →
   roomsFiles (state_of (run (joins_of room js) s)) !! room =
     Some [ {| name := "main.py"; content := "" |} ]) ∧
  (∀ fs, roomsFiles s !! room = Some fs →
         roomsFiles (state_of (run (joins_of room js) s)) = roomsFiles s) ∧
  state_of (ensureRoom room (state_of (ensureRoom room s))) =
    state_of (ensureRoom room s).
Proof.
  split; [|split].
  - intros Hp Hnone Hjs. rewrite run_joins_roomsFiles.
    destruct js; [done|]. by rewrite ensured_lookup, Hnone.
  - intros fs Hfs. rewrite run_joins_roomsFiles.
    destruct js; [done|]. by apply (ensured_lookup_own _ _ fs).
  - rewrite !ensureRoom_run. unfold state_of; simpl.
    by rewrite ensured_idemp.
Qed.

Lemma join_seeds_main_py_once_witness :
  roomsFiles (state_of (run (joins_of "r1" [("a", "Alice"); ("b", "Bob"); ("a", "Al")]%string)
                            initial)) !! "r1"%string
    = Some [ {| name := "main.py"; content := "" |} ].
Proof.
  apply (join_seeds_main_py_once initial "r1");
    [reflexivity|reflexivity|discriminate].
Defined.

(** ** The non-empty room property *)




(** ** Rosters *)

Lemma or_else_spec (v : option string) (d : string) :
  JS.or_else v d =
  match v with
  | Some x => if decide (x = ""%string) then d else x
  | None => d
  end.
Proof.
  destruct v as [x|]; [|done]. simpl.
  destruct (JS.truthy_string x) eqn:E; case_decide as Hd; try done.
  - by apply truthy_string_spec in E.
  - apply truthy_string_spec in Hd. congruence.
Qed.

Lemma roster_ids (s : Server) (room : string) :
  socketId <$> roster s room = members s room.
Proof.
  unfold roster. rewrite <- list_fmap_compose.
  induction (members s room) as [|id ms IH]; [done|].
  rewrite fmap_cons. by f_equal.
Qed.

Lemma roster_names (s : Server) (room : string) (c : Client) :
  c ∈ roster s room →
  match userSocketMap s !! socketId c with
  | Some u => if decide (username u = ""%string)
              then clientName c = "Anonymous"%string
              else clientName c = username u
  | None => clientName c = "Anonymous"%string
  end.
Proof.
  unfold roster. intros (id & -> & _)%list_elem_of_fmap. simpl.
  rewrite or_else_spec.
  destruct (userSocketMap s !! id) as [u|]; simpl; [|done].
  by case_decide.
Qed.

(** The claim C3 as stated fails: a connection registered with the empty
    display name is listed as "Anonymous" although it has a registry
    entry. *)
Lemma empty_name_listed_as_Anonymous :
  let s := state_of (run [ ("a", Connection); ("a", Join "r1" "") ]%string initial) in
  userSocketMap s !! "a"%string = Some {| username := ""; roomId := "r1" |} ∧
  emits_of (handle "b" (Join "r1" "Bob") s) !! 1%nat =
    Some {| audience := ToRoom "r1"; receivers := ["a"; "b"]%string;
            message := joined [ {| socketId := "a"; clientName := "Anonymous" |};
                                {| socketId := "b"; clientName := "Bob" |} ] |} ∧
  {| socketId := "a"; clientName := "" |}
    ∉ roster (state_of (handle "b" (Join "r1" "Bob") s)) "r1".
Proof.
  repeat split; try reflexivity.
  vm_compute. intros H.
  repeat (apply elem_of_cons in H as [H|H]; [discriminate|]).
  by apply elem_of_nil in H.
Qed.

(** C3 (amended). Every roster the server emits, on a join or on a
    disconnect, goes to one room, lists exactly the connections in that
    room's group at that time, and names each of them by its registered
    display name when that name is a non-empty string, and "Anonymous"
    when the registered name is the empty string or the connection has no
    registry entry. *)
Theorem roster_uses_registered_nonempty_name
    (s : Server) (socket : string) (e : Event)
    (k : nat) (em : Emission) (cl : list Client) :
  let r := handle socket e s in
  emits_of r !! k = Some em →
  roster_of (message em) = Some cl →
  ∃ room,
    audience em = ToRoom room ∧
    (e = Disconnect ∨ ∃ name, e = Join room name) ∧
    socketId <$> cl = members (state_of r) room ∧
    ∀ c, c ∈ cl →
      match userSocketMap (state_of r) !! socketId c with
      | Some u => if decide (username u = ""%string)
                  then clientName c = "Anonymous"%string
                  else clientName c = username u
      | None => clientName c = "Anonymous"%string
      end.
Proof.
  intros r Hk Hcl. subst r. destruct e; unfold handle in *.
  - destruct k; discriminate.
  - rewrite on_join_run in *. cbv zeta in *. unfold emits_of, state_of in *.
    simpl in Hk |- *.
    destruct k as [|[|k]]; simplify_eq/=.
    eexists. split; [done|]. split; [eauto|].
    split; [apply roster_ids|]. apply roster_names.
  - rewrite on_code_change_run in Hk. destruct k as [|k]; simplify_eq/=.
  - destruct k as [|k]; simplify_eq/=.
  - destruct k as [|k]; simplify_eq/=.
  - rewrite on_add_file_run in Hk.
    destruct (read_files _ _) as [[|]|]; destruct k as [|k]; simplify_eq/=.
  - rewrite on_rename_file_run in Hk.
    destruct (JS.truthy_ref _); destruct k as [|k]; simplify_eq/=.
  - rewrite on_delete_file_run in Hk.
    destruct (roomsFiles s !! roomId0); destruct k as [|k]; simplify_eq/=.
  - fold (handle socket Disconnect s) in *.
    rewrite handle_disconnect_run, on_disconnect_run in *. cbv zeta in *.
    destruct (userSocketMap (after_leave socket s) !! socket) as [u|];
      [destruct (JS.truthy_string (roomId u))|];
      destruct k as [|k]; simplify_eq/=.
    eexists. split; [done|]. split; [by left|].
    split; [apply roster_ids|]. apply roster_names.
Qed.

Lemma roster_uses_registered_nonempty_name_witness :
  ∃ room,
    ToRoom "r1" = ToRoom room ∧
    socketId <$> [ {| socketId := "a"; clientName := "Alice" |} ]
      = members (state_of (handle "a" (Join "r1" "Alice") initial)) room.
Proof.
  destruct (roster_uses_registered_nonempty_name initial "a" (Join "r1" "Alice") 1
              {| audience := ToRoom "r1"; receivers := ["a"%string];
                 message := joined [ {| socketId := "a"; clientName := "Alice" |} ] |}
              [ {| socketId := "a"; clientName := "Alice" |} ])
    as (room & Ha & _ & Hids & _); [reflexivity|reflexivity|].
  exists room. split; [exact Ha|exact Hids].
Defined.

(** ** Disconnect *)

(** The claim C9 as stated fails for a connection that joined the room
    whose id is the empty string: its entry is removed but the guard of
    line 145 is false and nothing is broadcast to the room it was in. *)
Lemma disconnect_from_empty_room_id_is_silent :
  let s := state_of (run [ ("a", Connection); ("b", Connection);
                           ("a", Join "" "Alice"); ("b", Join "" "Bob") ]%string
                         initial) in
  userSocketMap s !! "a"%string = Some {| username := "Alice"; roomId := "" |} ∧
  members s "" = ["a"; "b"]%string ∧
  userSocketMap (state_of (handle "a" Disconnect s)) !! "a"%string = None ∧
  emits_of (handle "a" Disconnect s) = [].
Proof. repeat split; reflexivity. Qed.

(** C9 (amended). A disconnect of a connection with no registry entry
    emits nothing and leaves the file store and the registry unchanged.
    A disconnect of a connection with a registry entry removes the entry
    and leaves the file store unchanged; when the recorded room id is a
    non-empty string, one message goes to that room, tagged with the
    departing connection's id and carrying the room's roster, and neither
    the roster nor the audience contains the departing connection; when
    the recorded room id is the empty string nothing is emitted. *)
Theorem disconnect_unjoined_silent_joined_announced
    (s : Server) (socket : string) :
  let r := handle socket Disconnect s in
  (userSocketMap s !! socket = None →
   emits_of r = [] ∧
   roomsFiles (state_of r) = roomsFiles s ∧
   userSocketMap (state_of r) = userSocketMap s) ∧
  (∀ u, userSocketMap s !! socket = Some u →
     userSocketMap (state_of r) = delete socket (userSocketMap s) ∧
     userSocketMap (state_of r) !! socket = None ∧
     roomsFiles (state_of r) = roomsFiles s ∧
     (roomId u ≠ ""%string →
      ∃ rcv cl,
        emits_of r =
          [ {| audience := ToRoom (roomId u); receivers := rcv;
               message := disconnected socket cl |} ] ∧
        cl = roster (state_of r) (roomId u) ∧
        rcv = members (state_of r) (roomId u) ∧
        (socket ∉ rcv) ∧
        (socket ∉ (socketId <$> cl))) ∧
     (roomId u = ""%string → emits_of r = [])).
Proof.
  cbv zeta. rewrite handle_disconnect_run, on_disconnect_run. cbv zeta.
  change (userSocketMap (after_leave socket s)) with (userSocketMap s).
  change (roomsFiles (after_leave socket s)) with (roomsFiles s).
  split.
  - intros Hnone. rewrite Hnone. unfold emits_of, state_of; simpl.
    split; [done|]. split; [done|]. by apply delete_id.
  - intros u Hu. rewrite Hu.
    assert (∀ room,
      socket ∉ members
        {| userSocketMap := delete socket (userSocketMap s);
           roomsFiles := roomsFiles s;
           rooms := rooms (after_leave socket s) |} room) as Hgone.
    { intros room.
      change (socket ∉ members (after_leave socket s) room).
      rewrite members_after_leave, list_elem_of_filter. by intros [? _]. }
    destruct (JS.truthy_string (roomId u)) eqn:Ht;
      unfold emits_of, state_of; simpl.
    + split; [done|]. split; [apply lookup_delete_eq|]. split; [done|].
      split.
      * intros _. eexists _, _. split; [done|].
        split; [done|]. split; [done|].
        split; [apply Hgone|]. rewrite roster_ids. apply Hgone.
      * intros Hempty. apply truthy_string_spec in Ht. done.
    + split; [done|]. split; [apply lookup_delete_eq|]. split; [done|].
      split; [|done].
      intros Hne. apply truthy_string_spec in Hne. congruence.
Qed.

Lemma disconnect_unjoined_silent_joined_announced_witness :
  let s := state_of (run [ ("a", Connection); ("b", Connection);
                           ("a", Join "r1" "Alice"); ("b", Join "r1" "Bob") ]%string
                         initial) in
  emits_of (handle "c" Disconnect s) = [] ∧
  ∃ rcv cl,
    emits_of (handle "a" Disconnect s) =
      [ {| audience := ToRoom "r1"; receivers := rcv;
           message := disconnected "a" cl |} ] ∧
    ("a"%string ∉ rcv).
Proof.
  intros s.
  pose proof (disconnect_unjoined_silent_joined_announced s "c") as [Hc _].
  pose proof (disconnect_unjoined_silent_joined_announced s "a") as [_ Ha].
  split.
  - apply Hc. reflexivity.
  - destruct (Ha {| username := "Alice"; roomId := "r1" |}) as (_ & _ & _ & Hb & _);
      [reflexivity|].
    destruct Hb as (rcv & cl & Hem & _ & _ & Hrcv & _); [discriminate|].
    exists rcv, cl. split; [exact Hem|exact Hrcv].
Defined.

(** ** Delete-file with an index that names no file *)

(** What the handler does for any index once the room exists: it splices
    and broadcasts, whether or not the index names a file. *)
Lemma delete_file_in_existing_room
    (s : Server) (socket room : string) (fs : list File) (i : Z) :
  roomsFiles s !! room = Some fs →
  let r := handle socket (DeleteFile room i) s in
  roomsFiles (state_of r) !! room = Some (JS.splice fs i 1) ∧
  emits_of r = [ {| audience := ToRoom room; receivers := members s room;
                    message := file_deleted i |} ].
Proof.
  intros Hfs. unfold handle. rewrite on_delete_file_run, Hfs.
  unfold state_of, emits_of; simpl. by rewrite lookup_insert_eq.
Qed.

(** At or past the end of the array nothing is removed, and the
    broadcast goes out all the same. *)
Lemma delete_file_past_end
    (s : Server) (socket room : string) (fs : list File) (i : Z) :
  roomsFiles s !! room = Some fs →
  Z.of_nat (length fs) ≤ i →
  let r := handle socket (DeleteFile room i) s in
  roomsFiles (state_of r) = roomsFiles s ∧
  emits_of r = [ {| audience := ToRoom room; receivers := members s room;
                    message := file_deleted i |} ].
Proof.
  intros Hfs Hi. unfold handle. rewrite on_delete_file_run, Hfs.
  unfold state_of, emits_of; simpl.
  rewrite splice_one_past_end by done. by rewrite insert_id.
Qed.

(** A delete-file event removes at most one file from the room. *)
Lemma delete_file_removes_at_most_one
    (s : Server) (socket room : string) (fs : list File) (i : Z) :
  roomsFiles s !! room = Some fs →
  ∃ fs', roomsFiles (state_of (handle socket (DeleteFile room i) s)) !! room
           = Some fs' ∧
         (length fs - 1 ≤ length fs' ≤ length fs)%nat.
Proof.
  intros Hfs.
  destruct (delete_file_in_existing_room s socket room fs i Hfs) as [Hs _].
  eexists. split; [exact Hs|apply splice_one_length].
Qed.

(** With no room for the id the handler changes and emits nothing; it
    throws when the id names an inherited property. *)
Lemma delete_file_in_missing_room
    (s : Server) (socket room : string) (i : Z) :
  roomsFiles s !! room = None →
  let r := handle socket (DeleteFile room i) s in
  state_of r = s ∧ emits_of r = [] ∧
  returned r = match object_prototype room with
               | Some _ => false
               | None => true
               end.
Proof.
  intros Hnone. unfold handle. rewrite on_delete_file_run, Hnone.
  by destruct (object_prototype room).
Qed.

(** C1. The handler at indices that name no file of an existing room
    with two files: index 5 removes nothing and still broadcasts
    file-deleted; index -1 names no file either, yet the last file is
    removed and file-deleted is broadcast. *)
Theorem delete_file_out_of_range_still_broadcasts :
  let main := {| name := "main.py"; content := "" |} in
  let util := {| name := "util.py"; content := "" |} in
  let s := state_of (run [ ("a", Connection); ("a", Join "r1" "Alice");
                           ("a", AddFile "r1" util) ]%string initial) in
  roomsFiles s !! "r1"%string = Some [main; util] ∧
  JS.array_get [main; util] 5 = None ∧
  JS.array_get [main; util] (-1) = None ∧
  (let r := handle "a" (DeleteFile "r1" 5) s in
   roomsFiles (state_of r) = roomsFiles s ∧
   emits_of r = [ {| audience := ToRoom "r1"; receivers := ["a"%string];
                     message := file_deleted 5 |} ]) ∧
  (let r := handle "a" (DeleteFile "r1" (-1)) s in
   roomsFiles (state_of r) !! "r1"%string = Some [main] ∧
   emits_of r = [ {| audience := ToRoom "r1"; receivers := ["a"%string];
                     message := file_deleted (-1) |} ]).
Proof. repeat split; reflexivity. Qed.

(** * Further properties of the handlers *)

(** ** Edits and cursors *)

Lemma edit_at_lookup (upd : File → File) (i : Z) (fs : list File) (j : nat) :
  edit_at upd i fs !! j =
  if decide (0 ≤ i ∧ j = Z.to_nat i) then upd <$> fs !! j else fs !! j.
Proof.
  unfold edit_at. case_decide as Hi.
  - rewrite list_lookup_alter.
    destruct (decide (Z.to_nat i = j)) as [<-|Hne].
    + by rewrite decide_True.
    + rewrite decide_False; [done|]. intros [_ ->]. done.
  - rewrite decide_False; [done|]. by intros [? _].
Qed.

Lemma edit_at_length (upd : File → File) (i : Z) (fs : list File) :
  length (edit_at upd i fs) = length fs.
Proof. unfold edit_at. case_decide; [apply length_alter|done]. Qed.

(** The guarded update of lines 96-98 and 123-124, as one map update. *)
Lemma guarded_update (s : Server) (room : string) (i : Z) (upd : File → File) :
  (if JS.truthy_ref (file_at s room i)
   then alter (alter upd (Z.to_nat i)) room (roomsFiles s)
   else roomsFiles s) =
  alter (edit_at upd i) room (roomsFiles s).
Proof.
  apply map_eq. intros room'.
  destruct (file_at s room i) as [f|] eqn:Hf; simpl.
  - apply file_at_Some in Hf as (fs & Hfs & Hi & _).
    rewrite !lookup_alter. case_decide; [subst|done].
    rewrite Hfs; simpl. unfold edit_at. by case_decide.
  - rewrite lookup_alter. case_decide; [subst|done].
    apply file_at_None in Hf as [Hnone|(fs & Hfs & Hi)].
    + by rewrite Hnone.
    + rewrite Hfs; simpl. f_equal. apply list_eq. intros j.
      rewrite edit_at_lookup. case_decide as Hj; [|done].
      destruct Hj as [? ->]. rewrite (proj2 (lookup_ge_None fs _)); [done|lia].
Qed.

Lemma code_change_roomsFiles (s : Server) (socket room code : string) (i : Z) :
  roomsFiles (state_of (handle socket (CodeChange room code i) s)) =
  alter (edit_at (set_content code) i) room (roomsFiles s).
Proof. rewrite handle_roomsFiles. apply guarded_update. Qed.

Lemma rename_file_roomsFiles (s : Server) (socket room newName : string) (i : Z) :
  roomsFiles (state_of (handle socket (RenameFile room i newName) s)) =
  alter (edit_at (set_name newName) i) room (roomsFiles s).
Proof. rewrite handle_roomsFiles. apply guarded_update. Qed.

Lemma run_two_state (s : Server) (socket1 socket2 : string) (e1 e2 : Event) :
  returned (handle socket1 e1 s) = true →
  state_of (run [ (socket1, e1); (socket2, e2) ] s) =
  state_of (handle socket2 e2 (state_of (handle socket1 e1 s))).
Proof.
  intros Hret. rewrite run_cons_state, Hret, run_cons_state.
  destruct (returned (handle socket2 e2 _)); reflexivity.
Qed.

(** X1. A cursor-change event leaves the whole server state as it is and
    produces one message, carrying the username and cursor of the input,
    delivered to exactly the connections of the room that are not in the
    group named by the sender's id; the sender, once connected, is in
    that group and so never receives it. *)
Theorem cursor_change_is_relayed_to_the_others
    (s : Server) (socket room name cursor : string) :
  let r := handle socket (CursorChange room name cursor) s in
  state_of r = s ∧
  returned r = true ∧
  ∃ rcv,
    emits_of r = [ {| audience := ToRoomExcept room socket; receivers := rcv;
                      message := cursor_change name cursor |} ] ∧
    (socket ∈ members s socket → socket ∉ rcv) ∧
    (∀ id, id ∈ rcv ↔ id ∈ members s room ∧ id ∉ members s socket).
Proof.
  unfold handle. rewrite on_cursor_change_run. split; [done|].
  split; [done|]. eexists. split; [done|]. split.
  - intros Hown. rewrite list_elem_of_filter. by intros [? _].
  - intros id. rewrite list_elem_of_filter. tauto.
Qed.

Lemma cursor_change_is_relayed_to_the_others_witness :
  let s := state_of (run [ ("a", Connection); ("b", Connection);
                           ("a", Join "r1" "Alice"); ("b", Join "r1" "Bob") ]%string
                         initial) in
  ∃ rcv,
    emits_of (handle "a" (CursorChange "r1" "Alice" "1:1") s) =
      [ {| audience := ToRoomExcept "r1" "a"; receivers := rcv;
           message := cursor_change "Alice" "1:1" |} ] ∧
    ("a"%string ∉ rcv).
Proof.
  intros s.
  destruct (cursor_change_is_relayed_to_the_others s "a" "r1" "Alice" "1:1")
    as (_ & _ & rcv & Hem & Hself & _).
  exists rcv. split; [exact Hem|]. apply Hself.
  assert (members s "a" = ["a"]%string) as -> by reflexivity.
  apply elem_of_cons. by left.
Defined.

(** X2. A code-change event on a position of the room's array replaces
    that file's content by the code and keeps its name, the array's
    length and every other file; in every case the handler returns, the
    registry, the membership and the other rooms are untouched, and the
    message is sent on, to the connections of the room outside the group
    named by the sender's id, whether or not any file was updated. *)
Theorem code_change_sets_content_and_always_relays
    (s : Server) (socket room code : string) (i : Z) :
  let r := handle socket (CodeChange room code i) s in
  returned r = true ∧
  emits_of r =
    [ {| audience := ToRoomExcept room socket;
         receivers := filter (λ id, id ∉ members s socket) (members s room);
         message := code_change code i |} ] ∧
  userSocketMap (state_of r) = userSocketMap s ∧
  rooms (state_of r) = rooms s ∧
  (∀ room', room' ≠ room →
            roomsFiles (state_of r) !! room' = roomsFiles s !! room') ∧
  (∀ fs f, roomsFiles s !! room = Some fs → JS.array_get fs i = Some f →
     ∃ fs',
       roomsFiles (state_of r) !! room = Some fs' ∧
       length fs' = length fs ∧
       JS.array_get fs' i = Some {| name := name f; content := code |} ∧
       ∀ j, j ≠ i → JS.array_get fs' j = JS.array_get fs j).
Proof.
  cbv zeta. split; [|split; [|split; [|split; [|split]]]].
  - unfold handle. by rewrite on_code_change_run.
  - unfold handle. by rewrite on_code_change_run.
  - unfold handle. rewrite on_code_change_run.
    by destruct (JS.truthy_ref _).
  - unfold handle. rewrite on_code_change_run.
    by destruct (JS.truthy_ref _).
  - intros room' Hne. rewrite code_change_roomsFiles.
    by rewrite lookup_alter_ne.
  - intros fs f Hfs Hf. rewrite code_change_roomsFiles.
    rewrite lookup_alter_eq, Hfs; simpl.
    apply array_get_Some in Hf as [Hi Hf].
    eexists. split; [done|]. split; [apply edit_at_length|]. split.
    + apply array_get_Some. split; [done|].
      rewrite edit_at_lookup, Hf. by rewrite decide_True.
    + intros j Hj. unfold JS.array_get. case_decide; [|done].
      rewrite edit_at_lookup. rewrite decide_False; [done|].
      intros [_ Heq]. lia.
Qed.

Lemma code_change_sets_content_and_always_relays_witness :
  let s := state_of (run [ ("a", Join "r1" "Alice") ]%string initial) in
  ∃ fs',
    roomsFiles (state_of (handle "a" (CodeChange "r1" "print(1)" 0) s))
      !! "r1"%string = Some fs' ∧
    JS.array_get fs' 0 = Some {| name := "main.py"; content := "print(1)" |}.
Proof.
  intros s.
  destruct (code_change_sets_content_and_always_relays s "a" "r1" "print(1)" 0)
    as (_ & _ & _ & _ & _ & Hset).
  destruct (Hset [default_file] default_file) as (fs' & Hfs' & _ & Hget & _);
    [reflexivity|reflexivity|].
  exists fs'. split; [exact Hfs'|exact Hget].
Defined.

(** X3. Two code-change events on the same room and index, from any two
    connections: the file store ends as if only the second had been
    handled (the last write wins, nothing of the first survives). *)
Theorem code_change_last_write_wins
    (s : Server) (socket1 socket2 room code1 code2 : string) (i : Z) :
  roomsFiles (state_of (run [ (socket1, CodeChange room code1 i);
                              (socket2, CodeChange room code2 i) ] s)) =
  roomsFiles (state_of (handle socket2 (CodeChange room code2 i) s)).
Proof.
  rewrite run_two_state by (by rewrite handle_returned).
  rewrite !code_change_roomsFiles.
  apply map_eq. intros room'.
  destruct (decide (room = room')) as [<-|Hne];
    [|by rewrite !lookup_alter_ne].
  rewrite !lookup_alter_eq.
  destruct (roomsFiles s !! room) as [fs|]; simpl; [|done].
  f_equal. apply list_eq. intros j. rewrite !edit_at_lookup.
  case_decide; [|done]. by destruct (fs !! j).
Qed.

(** X4. A rename-file and a code-change event commute on the file store,
    whatever rooms and indices they name: renaming never touches a
    content and editing never touches a name. *)
Theorem rename_and_code_change_commute
    (s : Server) (socket1 socket2 room1 room2 newName code : string)
    (i1 i2 : Z) :
  roomsFiles (state_of (run [ (socket1, RenameFile room1 i1 newName);
                              (socket2, CodeChange room2 code i2) ] s)) =
  roomsFiles (state_of (run [ (socket2, CodeChange room2 code i2);
                              (socket1, RenameFile room1 i1 newName) ] s)).
Proof.
  rewrite !run_two_state by (by rewrite handle_returned).
  rewrite code_change_roomsFiles, !rename_file_roomsFiles,
    code_change_roomsFiles.
  apply map_eq. intros room'.
  destruct (decide (room1 = room')) as [E1|Hne1];
    destruct (decide (room2 = room')) as [E2|Hne2]; subst;
    repeat (rewrite lookup_alter_eq || rewrite lookup_alter_ne by done);
    try done.
  destruct (roomsFiles s !! room') as [fs|]; simpl; [|done].
  f_equal. apply list_eq. intros j. rewrite !edit_at_lookup.
  repeat case_decide; try done. by destruct (fs !! j).
Qed.

(** ** Adding and deleting files *)

(** [splice(i, 1)] for every integer [i], in terms of the position it
    removes. *)
Lemma splice_one_cases {A} (arr : list A) (i : Z) :
  let n := Z.of_nat (length arr) in
  JS.splice arr i 1 =
  if decide (n ≤ i) then arr
  else if decide (0 ≤ i) then delete (Z.to_nat i) arr
  else if decide (- n ≤ i) then delete (Z.to_nat (n + i)) arr
  else delete 0%nat arr.
Proof.
  cbv zeta. repeat case_decide.
  - by apply splice_one_past_end.
  - rewrite delete_take_drop. apply splice_one_in_range. lia.
  - rewrite delete_take_drop.
    unfold JS.splice, JS.splice_start, JS.splice_count.
    rewrite decide_True by lia.
    replace (Z.max (Z.of_nat (length arr) + i) 0)
      with (Z.of_nat (length arr) + i) by lia.
    replace (Z.min (Z.max 1 0)
               (Z.of_nat (length arr) - (Z.of_nat (length arr) + i)))
      with 1 by lia.
    by replace (Z.to_nat (Z.of_nat (length arr) + i + 1))
      with (S (Z.to_nat (Z.of_nat (length arr) + i))) by lia.
  - unfold JS.splice, JS.splice_start, JS.splice_count.
    rewrite decide_True by lia.
    replace (Z.max (Z.of_nat (length arr) + i) 0) with 0 by lia.
    destruct arr as [|x arr]; [done|].
    replace (Z.min (Z.max 1 0) (Z.of_nat (length (x :: arr)) - 0))
      with 1 by (simpl length; lia).
    done.
Qed.

(** Add-file when the id does not read as an inherited value. *)
Lemma on_add_file_returns (s : Server) (socket room : string) (file : File) :
  (roomsFiles s !! room = None → object_prototype room = None) →
  on_add_file socket room file s =
  let fs := default [] (roomsFiles s !! room) in
  (Some (), {| userSocketMap := userSocketMap s;
               roomsFiles := <[room := fs ++ [file]]> (roomsFiles s);
               rooms := rooms s |},
   [ {| audience := ToRoom room; receivers := members s room;
        message := file_added file (Z.of_nat (length fs)) |} ]).
Proof.
  intros Hok. rewrite on_add_file_run. unfold read_files.
  destruct (roomsFiles s !! room); [done|]. by rewrite Hok.
Qed.

(** X5. Add-file on an existing room appends the file: it lands at the
    index that is broadcast, which is the previous length, every earlier
    file stays at its index, and the broadcast reaches the whole room. *)
Theorem add_file_appends_at_broadcast_index
    (s : Server) (socket room : string) (file : File) (fs : list File) :
  roomsFiles s !! room = Some fs →
  let r := handle socket (AddFile room file) s in
  ∃ fs' idx,
    roomsFiles (state_of r) !! room = Some fs' ∧
    emits_of r = [ {| audience := ToRoom room; receivers := members s room;
                      message := file_added file idx |} ] ∧
    idx = Z.of_nat (length fs) ∧
    Z.of_nat (length fs') = idx + 1 ∧
    JS.array_get fs' idx = Some file ∧
    (∀ j, j < idx → JS.array_get fs' j = JS.array_get fs j).
Proof.
  intros Hfs. unfold handle.
  rewrite on_add_file_returns by (by rewrite Hfs). cbv zeta.
  unfold state_of, emits_of; simpl. rewrite Hfs; simpl.
  rewrite lookup_insert_eq.
  eexists _, _. split; [done|]. split; [done|]. split; [done|].
  split; [rewrite length_app; simpl; lia|]. split.
  - apply array_get_Some. split; [lia|].
    rewrite Nat2Z.id. by rewrite lookup_app_r, Nat.sub_diag.
  - intros j Hj. unfold JS.array_get. case_decide; [|done].
    apply lookup_app_l. lia.
Qed.

Lemma add_file_appends_at_broadcast_index_witness :
  let s := state_of (run [ ("a", Join "r1" "Alice") ]%string initial) in
  ∃ fs' idx,
    roomsFiles (state_of (handle "b" (AddFile "r1" {| name := "util.py"; content := "" |}) s))
      !! "r1"%string = Some fs' ∧
    idx = 1 ∧
    JS.array_get fs' idx = Some {| name := "util.py"; content := "" |}.
Proof.
  intros s.
  destruct (add_file_appends_at_broadcast_index s "b" "r1"
              {| name := "util.py"; content := "" |} [default_file])
    as (fs' & idx & Hfs' & _ & Hidx & _ & Hget & _); [reflexivity|].
  exists fs', idx. split; [exact Hfs'|]. split; [exact Hidx|exact Hget].
Defined.

(** X6. Add-file on a room id that is in the store or is not the name of
    an inherited property, followed by delete-file at the index that was
    broadcast, undoes the addition: an existing room gets back exactly
    its previous file list and the whole store is as before; a room that
    did not exist is left behind with an empty list. *)
Theorem add_then_delete_at_broadcast_index
    (s : Server) (socket1 socket2 room : string) (file : File) :
  (roomsFiles s !! room = None → object_prototype room = None) →
  let idx := Z.of_nat (length (default [] (roomsFiles s !! room))) in
  let s' := state_of (run [ (socket1, AddFile room file);
                            (socket2, DeleteFile room idx) ] s) in
  returned (run [ (socket1, AddFile room file);
                  (socket2, DeleteFile room idx) ] s) = true ∧
  emits_of (handle socket1 (AddFile room file) s) =
    [ {| audience := ToRoom room; receivers := members s room;
         message := file_added file idx |} ] ∧
  roomsFiles s' !! room = Some (default [] (roomsFiles s !! room)) ∧
  (is_Some (roomsFiles s !! room) → roomsFiles s' = roomsFiles s).
Proof.
  intros Hok. cbv zeta.
  assert (returned (handle socket1 (AddFile room file) s) = true) as Hret.
  { rewrite handle_returned. destruct (roomsFiles s !! room); [done|].
    by rewrite Hok. }
  rewrite run_two_state by done.
  set (fs := default [] (roomsFiles s !! room)).
  assert (roomsFiles (state_of (handle socket1 (AddFile room file) s))
          = <[room := fs ++ [file]]> (roomsFiles s)) as Hadd.
  { unfold handle. by rewrite on_add_file_returns. }
  assert (roomsFiles
            (state_of (handle socket2 (DeleteFile room (Z.of_nat (length fs)))
                         (state_of (handle socket1 (AddFile room file) s))))
          = <[room := fs]> (roomsFiles s)) as Hdel.
  { rewrite handle_roomsFiles, Hadd, lookup_insert_eq, insert_insert_eq.
    f_equal. rewrite splice_one_in_range
      by (rewrite length_app; simpl; lia).
    rewrite Nat2Z.id, take_app_length.
    rewrite drop_ge; [apply app_nil_r|]. rewrite length_app; simpl; lia. }
  split; [|split; [|split]].
  - rewrite run_cons_returned, Hret, run_cons_returned, handle_returned.
    by rewrite Hadd, lookup_insert_eq.
  - unfold handle. by rewrite on_add_file_returns.
  - by rewrite Hdel, lookup_insert_eq.
  - intros [fs0 Hfs0]. rewrite Hdel. apply insert_id.
    subst fs. by rewrite Hfs0.
Qed.

Lemma add_then_delete_at_broadcast_index_witness :
  let s := state_of (run [ ("a", Join "r1" "Alice") ]%string initial) in
  roomsFiles (state_of (run [ ("a", AddFile "r1" {| name := "util.py"; content := "" |});
                              ("b", DeleteFile "r1" 1) ]%string s))
    = roomsFiles s.
Proof.
  intros s.
  destruct (add_then_delete_at_broadcast_index s "a" "b" "r1"
              {| name := "util.py"; content := "" |}) as (_ & _ & _ & Hsame);
    [discriminate|].
  apply Hsame. by exists [default_file].
Defined.

(** X7. Delete-file on an existing room, for every integer index: the
    broadcast goes out in all cases; an index at or past the end removes
    nothing; a position of the array removes that file; a negative index
    down to minus the length removes the file counted from the end; a
    smaller index removes the first file. *)
Theorem delete_file_by_index_cases
    (s : Server) (socket room : string) (fs : list File) (i : Z) :
  roomsFiles s !! room = Some fs →
  let n := Z.of_nat (length fs) in
  let r := handle socket (DeleteFile room i) s in
  emits_of r = [ {| audience := ToRoom room; receivers := members s room;
                    message := file_deleted i |} ] ∧
  roomsFiles (state_of r) !! room =
    Some (if decide (n ≤ i) then fs
          else if decide (0 ≤ i) then delete (Z.to_nat i) fs
          else if decide (- n ≤ i) then delete (Z.to_nat (n + i)) fs
          else delete 0%nat fs).
Proof.
  intros Hfs.
  destruct (delete_file_in_existing_room s socket room fs i Hfs) as [Hs He].
  cbv zeta. split; [exact He|].
  rewrite Hs. f_equal. apply splice_one_cases.
Qed.

Lemma delete_file_by_index_cases_witness :
  let s := state_of (run [ ("a", Join "r1" "Alice");
                           ("a", AddFile "r1" {| name := "util.py"; content := "" |}) ]%string
                         initial) in
  roomsFiles (state_of (handle "a" (DeleteFile "r1" (-2)) s)) !! "r1"%string
    = Some [ {| name := "util.py"; content := "" |} ].
Proof.
  intros s.
  destruct (delete_file_by_index_cases s "a" "r1"
              [default_file; {| name := "util.py"; content := "" |}] (-2))
    as [_ Hs]; [reflexivity|].
  exact Hs.
Defined.

(** ** The file store across events *)

(** X8. What an event does to the file store depends on the event and on
    the file store alone: not on which connection sent it, nor on the
    registry or the membership.  A connection that never joined a room
    changes its files exactly as a member would. *)
Theorem file_store_ignores_the_sender
    (s1 s2 : Server) (socket1 socket2 : string) (e : Event) :
  roomsFiles s1 = roomsFiles s2 →
  roomsFiles (state_of (handle socket1 e s1)) =
  roomsFiles (state_of (handle socket2 e s2)).
Proof.
  intros Heq. rewrite !handle_roomsFiles. unfold file_at. by rewrite Heq.
Qed.

Lemma file_store_ignores_the_sender_witness :
  let s := state_of (run [ ("a", Join "r1" "Alice") ]%string initial) in
  roomsFiles (state_of (handle "a" (CodeChange "r1" "x = 1" 0) s)) =
  roomsFiles (state_of (handle "stranger" (CodeChange "r1" "x = 1" 0) s)).
Proof.
  intros s. apply file_store_ignores_the_sender. reflexivity.
Defined.

Lemma handle_other_room (s : Server) (socket room' : string) (e : Event) :
  room_of e ≠ Some room' →
  roomsFiles (state_of (handle socket e s)) !! room' = roomsFiles s !! room'.
Proof.
  intros Hne. rewrite handle_roomsFiles.
  destruct e; simpl in Hne; try done.
  - apply ensured_lookup_ne. congruence.
  - rewrite guarded_update. apply lookup_alter_ne. congruence.
  - destruct (roomsFiles s !! roomId0);
      [|destruct (object_prototype roomId0); [done|]];
      apply lookup_insert_ne; congruence.
  - rewrite guarded_update. apply lookup_alter_ne. congruence.
  - destruct (roomsFiles s !! roomId0); [|done].
    apply lookup_insert_ne. congruence.
Qed.

(** X9. A run of events none of which names a given room in its payload
    leaves that room's file list exactly as it was, present or absent,
    whatever the events do to other rooms and whether the run ends or a
    handler throws on the way; connection and disconnect events name no
    room. *)
Theorem other_rooms_files_untouched
    (evs : list (string * Event)) (s : Server) (room' : string) :
  forallb (λ se, negb (names_room room' se.2)) evs = true →
  roomsFiles (state_of (run evs s)) !! room' = roomsFiles s !! room'.
Proof.
  revert s. induction evs as [|[socket e] rest IH]; intros s Hnames; [done|].
  simpl in Hnames. apply andb_prop in Hnames as [He Hrest].
  apply negb_true_iff in He. unfold names_room in He.
  apply bool_decide_eq_false in He.
  rewrite run_cons_state. destruct (returned _).
  - rewrite IH by done. by apply handle_other_room.
  - by apply handle_other_room.
Qed.

Lemma other_rooms_files_untouched_witness :
  let s := state_of (run [ ("a", Join "r1" "Alice"); ("b", Join "r2" "Bob") ]%string
                         initial) in
  roomsFiles (state_of (run [ ("a", DeleteFile "r1" 0); ("a", Disconnect);
                              ("b", AddFile "r3" default_file) ]%string s))
    !! "r2"%string
  = roomsFiles s !! "r2"%string.
Proof.
  intros s. apply other_rooms_files_untouched. reflexivity.
Defined.

Lemma handle_room_length (s : Server) (socket room : string) (e : Event)
    (fs : list File) :
  roomsFiles s !! room = Some fs →
  ∃ fs', roomsFiles (state_of (handle socket e s)) !! room = Some fs' ∧
         (length fs - 1 ≤ length fs' ≤ length fs + 1)%nat ∧
         (is_delete e = false → (length fs ≤ length fs')%nat).
Proof.
  intros Hfs. destruct (decide (room_of e = Some room)) as [He|He].
  - rewrite handle_roomsFiles. destruct e; simpl in He; simplify_eq.
    + rewrite (ensured_lookup_own _ _ fs), Hfs by done.
      eexists. split; [done|]. lia.
    + rewrite guarded_update, lookup_alter_eq, Hfs; simpl.
      eexists. split; [done|]. rewrite edit_at_length. lia.
    + rewrite Hfs. eexists. split; [done|]. lia.
    + rewrite Hfs. eexists. split; [done|]. lia.
    + rewrite Hfs, lookup_insert_eq; simpl.
      eexists. split; [done|]. rewrite length_app; simpl. lia.
    + rewrite guarded_update, lookup_alter_eq, Hfs; simpl.
      eexists. split; [done|]. rewrite edit_at_length. lia.
    + rewrite Hfs, lookup_insert_eq.
      eexists. split; [done|].
      pose proof (splice_one_length fs fileIndex). split; [lia|done].
  - rewrite handle_other_room by done.
    eexists. split; [done|]. lia.
Qed.

(** X10. While the server runs, rooms are never removed from the file
    store: through every run of events in which no handler throws, a room
    that is in the store stays in it, and as long as the run handles no
    delete-file event its file list never gets shorter. *)
Theorem rooms_persist_and_only_delete_shrinks
    (evs : list (string * Event)) (s : Server) (room : string)
    (fs : list File) :
  roomsFiles s !! room = Some fs →
  returned (run evs s) = true →
  ∃ fs', roomsFiles (state_of (run evs s)) !! room = Some fs' ∧
         (forallb (λ se, negb (is_delete se.2)) evs = true →
          (length fs ≤ length fs')%nat).
Proof.
  revert s fs. induction evs as [|[socket e] rest IH]; intros s fs Hfs Hret.
  - exists fs. split; [done|]. lia.
  - rewrite run_cons_returned in Hret. apply andb_prop in Hret as [Hret1 Hret2].
    rewrite run_cons_state, Hret1.
    destruct (handle_room_length s socket room e fs Hfs) as (fs1 & H1 & _ & Hnd).
    destruct (IH _ _ H1 Hret2) as (fs' & Hfs' & Hrest).
    exists fs'. split; [done|]. simpl.
    intros [He Hr]%andb_prop.
    specialize (Hrest Hr). apply negb_true_iff in He.
    specialize (Hnd He). lia.
Qed.

Lemma rooms_persist_and_only_delete_shrinks_witness :
  let s := state_of (run [ ("a", Join "r1" "Alice") ]%string initial) in
  ∃ fs',
    roomsFiles (state_of (run [ ("a", DeleteFile "r1" 0); ("a", Disconnect);
                                ("b", CodeChange "r1" "x" 0) ]%string s))
      !! "r1"%string = Some fs'.
Proof.
  intros s.
  destruct (rooms_persist_and_only_delete_shrinks
              [ ("a", DeleteFile "r1" 0); ("a", Disconnect);
                ("b", CodeChange "r1" "x" 0) ]%string s "r1" [default_file])
    as (fs' & Hfs' & _); [reflexivity|reflexivity|].
  exists fs'. exact Hfs'.
Defined.

(** X20. With payloads of the stated types, a handler throws in exactly
    one situation: an add-file or a delete-file event whose room id the
    store does not hold and which is the name of an inherited property.
    It then throws before changing the state or emitting anything; every
    other event is handled to its end. *)
Theorem only_inherited_room_ids_make_a_handler_throw
    (s : Server) (socket : string) (e : Event) :
  let r := handle socket e s in
  (returned r = false ↔
   ∃ room, (is_Some (object_prototype room)) ∧
           roomsFiles s !! room = None ∧
           ((∃ file, e = AddFile room file) ∨ (∃ i, e = DeleteFile room i))) ∧
  (returned r = false → state_of r = s ∧ emits_of r = []).
Proof.
  cbv zeta. split.
  - rewrite handle_returned. destruct e; try (split; [done|]);
      try (intros (room & _ & _ & [[? ?]|[? ?]]); discriminate).
    + destruct (roomsFiles s !! roomId0) eqn:Hs;
        [|destruct (object_prototype roomId0) eqn:Hp]; split; try done.
      * intros (room & _ & Hnone & [[? [= <- _]]|[? ?]]); [congruence|done].
      * intros _. exists roomId0. rewrite Hp. eauto 6.
      * intros (room & [? Hq] & _ & [[? [= <- _]]|[? ?]]); [congruence|done].
    + destruct (roomsFiles s !! roomId0) eqn:Hs;
        [|destruct (object_prototype roomId0) eqn:Hp]; split; try done.
      * intros (room & _ & Hnone & [[? ?]|[? [= <- _]]]); [done|congruence].
      * intros _. exists roomId0. rewrite Hp. eauto 6.
      * intros (room & [? Hq] & _ & [[? ?]|[? [= <- _]]]); [done|congruence].
  - rewrite handle_returned. destruct e; try discriminate; unfold handle.
    + rewrite on_add_file_run. unfold read_files.
      destruct (roomsFiles s !! roomId0); [discriminate|].
      by destruct (object_prototype roomId0).
    + rewrite on_delete_file_run.
      destruct (roomsFiles s !! roomId0); [discriminate|].
      by destruct (object_prototype roomId0).
Qed.

Lemma only_inherited_room_ids_make_a_handler_throw_witness :
  let s := state_of (run [ ("a", Join "r1" "Alice") ]%string initial) in
  state_of (handle "a" (DeleteFile "valueOf" 0) s) = s ∧
  emits_of (handle "a" (DeleteFile "valueOf" 0) s) = [].
Proof.
  intros s.
  destruct (only_inherited_room_ids_make_a_handler_throw
              s "a" (DeleteFile "valueOf" 0)) as [_ Hnothing].
  apply Hnothing. reflexivity.
Defined.

(** ** Registry, membership and rosters across events *)

(** The registry is written by join and disconnect only. *)
Lemma handle_userSocketMap (s : Server) (socket : string) (e : Event) :
  userSocketMap (state_of (handle socket e s)) =
  match e with
  | Join room name =>
      <[socket := {| username := name; roomId := room |}]> (userSocketMap s)
  | Disconnect => delete socket (userSocketMap s)
  | _ => userSocketMap s
  end.
Proof.
  destruct e; unfold handle.
  - reflexivity.
  - by rewrite on_join_run.
  - rewrite on_code_change_run. by destruct (JS.truthy_ref _).
  - reflexivity.
  - reflexivity.
  - rewrite on_add_file_run. by destruct (read_files _ _) as [[|]|].
  - rewrite on_rename_file_run. by destruct (JS.truthy_ref _).
  - rewrite on_delete_file_run. by destruct (roomsFiles s !! roomId0).
  - fold (handle socket Disconnect s).
    rewrite handle_disconnect_run, on_disconnect_run. cbv zeta.
    destruct (userSocketMap (after_leave socket s) !! socket) as [u|]; [|done].
    by destruct (JS.truthy_string (roomId u)).
Qed.

(** The groups change on connection, join and disconnect only. *)
Lemma handle_members (s : Server) (socket room : string) (e : Event) :
  members (state_of (handle socket e s)) room =
  match e with
  | Connection =>
      if decide (socket = room) then set_add socket (members s room)
      else members s room
  | Join r _ =>
      if decide (r = room) then set_add socket (members s room)
      else members s room
  | Disconnect => filter (λ id, id ≠ socket) (members s room)
  | _ => members s room
  end.
Proof.
  destruct e; unfold handle.
  - unfold members at 1, socket_join, state_of; simpl.
    rewrite lookup_insert. by case_decide; subst.
  - rewrite on_join_run. cbv zeta. unfold state_of; simpl.
    unfold members at 1, after_join; simpl.
    rewrite lookup_insert. by case_decide; subst.
  - rewrite on_code_change_run. by destruct (JS.truthy_ref _).
  - reflexivity.
  - reflexivity.
  - rewrite on_add_file_run. by destruct (read_files _ _) as [[|]|].
  - rewrite on_rename_file_run. by destruct (JS.truthy_ref _).
  - rewrite on_delete_file_run. by destruct (roomsFiles s !! roomId0).
  - fold (handle socket Disconnect s).
    rewrite handle_disconnect_run, on_disconnect_run. cbv zeta.
    rewrite <- members_after_leave.
    destruct (userSocketMap (after_leave socket s) !! socket) as [u|]; [|done].
    by destruct (JS.truthy_string (roomId u)).
Qed.

Lemma set_add_keeps (id id' : string) (ms : list string) :
  id' ∈ ms → id' ∈ set_add id ms.
Proof. unfold set_add. case_decide; set_solver. Qed.

Lemma set_add_present (id : string) (ms : list string) :
  id ∈ ms → set_add id ms = ms.
Proof. intros Hin. unfold set_add. by rewrite decide_True. Qed.

Lemma handle_keeps_registered_in_group (s : Server) (socket : string) (e : Event) :
  registered_in_group s → registered_in_group (state_of (handle socket e s)).
Proof.
  intros Hinv id u. rewrite handle_userSocketMap, handle_members.
  destruct e; try apply Hinv.
  - intros Hu. case_decide; [apply set_add_keeps|]; by apply Hinv.
  - rewrite lookup_insert. case_decide as Hid.
    + intros [= <-]. simpl. rewrite decide_True by done.
      subst. apply set_add_elem.
    + intros Hu. case_decide; [apply set_add_keeps|]; by apply Hinv.
  - rewrite lookup_delete. case_decide as Hid; [done|].
    intros Hu. apply list_elem_of_filter. split; [congruence|by apply Hinv].
Qed.

(** X11. In every state the server reaches from its start, every
    connection with a registry entry is in the group of the room recorded
    for it, so it is listed on that room's roster and is among the
    receivers of every message sent to that room. *)
Theorem registered_connections_are_on_their_roster
    (evs : list (string * Event)) (id : string) (u : User) :
  let s := state_of (run evs initial) in
  userSocketMap s !! id = Some u →
  id ∈ members s (roomId u) ∧
  id ∈ (socketId <$> roster s (roomId u)) ∧
  id ∈ deliver s (ToRoom (roomId u)).
Proof.
  cbv zeta. intros Hu.
  assert (registered_in_group (state_of (run evs initial))) as Hinv.
  { apply run_preserves.
    - intros socket e s. apply handle_keeps_registered_in_group.
    - intros id' u'. done. }
  specialize (Hinv id u Hu). by rewrite roster_ids.
Qed.

Lemma registered_connections_are_on_their_roster_witness :
  let s := state_of (run [ ("a", Connection); ("b", Connection);
                           ("a", Join "r1" "Alice"); ("b", Join "r1" "Bob");
                           ("b", Join "r2" "Bob"); ("a", Disconnect) ]%string
                         initial) in
  "b"%string ∈ members s "r2".
Proof.
  intros s.
  apply (registered_connections_are_on_their_roster
           [ ("a", Connection); ("b", Connection);
             ("a", Join "r1" "Alice"); ("b", Join "r1" "Bob");
             ("b", Join "r2" "Bob"); ("a", Disconnect) ]%string
           "b" {| username := "Bob"; roomId := "r2" |}).
  reflexivity.
Defined.

(** X12. A join never takes the connection out of a room it joined
    before: after joining a second room it is still in the first room's
    group and on its roster, while the registry records only the second
    room; when it later disconnects, every message the handler emits is
    addressed to the second room, none to the first. *)
Theorem joining_another_room_keeps_the_first
    (s : Server) (socket room1 room2 name : string) :
  room1 ≠ room2 →
  socket ∈ members s room1 →
  let s' := state_of (handle socket (Join room2 name) s) in
  socket ∈ members s' room1 ∧
  socket ∈ (socketId <$> roster s' room1) ∧
  roomId <$> userSocketMap s' !! socket = Some room2 ∧
  ∀ k em, emits_of (handle socket Disconnect s') !! k = Some em →
          audience em = ToRoom room2.
Proof.
  intros Hne Hin. cbv zeta.
  assert (socket ∈ members (state_of (handle socket (Join room2 name) s)) room1)
    as Hin'.
  { rewrite handle_members. by rewrite decide_False. }
  assert (userSocketMap (state_of (handle socket (Join room2 name) s)) !! socket
          = Some {| username := name; roomId := room2 |}) as Hreg.
  { by rewrite handle_userSocketMap, lookup_insert_eq. }
  split; [done|]. split; [by rewrite roster_ids|].
  split; [by rewrite Hreg|].
  intros k em. rewrite handle_disconnect_run, on_disconnect_run. cbv zeta.
  change (userSocketMap (after_leave socket ?x)) with (userSocketMap x).
  rewrite Hreg. simpl roomId.
  destruct (JS.truthy_string room2); destruct k as [|k]; simpl;
    intros [= <-] || (intros ?; simplify_eq); done.
Qed.

Lemma joining_another_room_keeps_the_first_witness :
  let s := state_of (run [ ("a", Connection); ("a", Join "r1" "Alice") ]%string
                         initial) in
  "a"%string ∈ members (state_of (handle "a" (Join "r2" "Alice") s)) "r1".
Proof.
  intros s.
  destruct (joining_another_room_keeps_the_first s "a" "r1" "r2" "Alice")
    as [Hin _]; [discriminate| |exact Hin].
  assert (members s "r1" = ["a"%string]) as -> by reflexivity.
  apply elem_of_cons. by left.
Defined.

(** X13. Every message an event produces is delivered only to connections
    that are, once the event is handled, in the group of the room the
    event addresses: the room named in its payload, or for a disconnect
    the room recorded for the connection. *)
Theorem messages_stay_in_the_addressed_room
    (s : Server) (socket : string) (e : Event) (k : nat) (em : Emission) :
  let r := handle socket e s in
  emits_of r !! k = Some em →
  ∃ room,
    addressed_room s socket e = Some room ∧
    ∀ id, id ∈ receivers em → id ∈ members (state_of r) room.
Proof.
  cbv zeta. intros Hk.
  destruct e.
  - destruct k; discriminate.
  - exists roomId0. split; [done|]. intros id.
    rewrite handle_members, decide_True by done.
    unfold handle in Hk. rewrite on_join_run in Hk. cbv zeta in Hk.
    unfold emits_of in Hk. simpl in Hk.
    destruct k as [|[|k]]; simplify_eq/=.
    + intros ->%list_elem_of_singleton. apply set_add_elem.
    + by rewrite members_after_join.
  - exists roomId0. split; [done|]. intros id. rewrite handle_members.
    unfold handle in Hk. rewrite on_code_change_run in Hk.
    destruct k as [|k]; simplify_eq/=. rewrite list_elem_of_filter. by intros [_ ?].
  - exists roomId0. split; [done|]. intros id. rewrite handle_members.
    destruct k as [|k]; simplify_eq/=. rewrite list_elem_of_filter. by intros [_ ?].
  - exists roomId0. split; [done|]. intros id. rewrite handle_members.
    destruct k as [|k]; simplify_eq/=. done.
  - exists roomId0. split; [done|]. intros id. rewrite handle_members.
    unfold handle in Hk. rewrite on_add_file_run in Hk.
    destruct (read_files _ _) as [[|]|]; destruct k as [|k]; simplify_eq/=;
      done.
  - exists roomId0. split; [done|]. intros id. rewrite handle_members.
    unfold handle in Hk. rewrite on_rename_file_run in Hk.
    destruct (JS.truthy_ref _); destruct k as [|k]; simplify_eq/=. done.
  - exists roomId0. split; [done|]. intros id. rewrite handle_members.
    unfold handle in Hk. rewrite on_delete_file_run in Hk.
    destruct (roomsFiles s !! roomId0); destruct k as [|k]; simplify_eq/=.
    done.
  - assert (∀ room, members (state_of (handle socket Disconnect s)) room
                    = members (after_leave socket s) room) as Hmem.
    { intros room. by rewrite handle_members, members_after_leave. }
    set (s' := state_of (handle socket Disconnect s)) in *. clearbody s'.
    rewrite handle_disconnect_run, on_disconnect_run in Hk. cbv zeta in Hk.
    change (userSocketMap (after_leave socket s)) with (userSocketMap s) in Hk.
    simpl addressed_room.
    destruct (userSocketMap s !! socket) as [u|];
      [destruct (JS.truthy_string (roomId u))|];
      destruct k as [|k]; simplify_eq/=.
    exists (roomId u). split; [done|]. intros id.
    by rewrite Hmem.
Qed.

Lemma messages_stay_in_the_addressed_room_witness :
  let s := state_of (run [ ("a", Connection); ("b", Connection);
                           ("a", Join "r1" "Alice"); ("b", Join "r2" "Bob") ]%string
                         initial) in
  ∃ room,
    addressed_room s "a" (ChatMessage "r1" "Alice" "hi" "12:00") = Some room ∧
    ∀ id, id ∈ ["a"%string] → id ∈ members s room.
Proof.
  intros s.
  apply (messages_stay_in_the_addressed_room s "a"
           (ChatMessage "r1" "Alice" "hi" "12:00") 0
           {| audience := ToRoom "r1"; receivers := ["a"%string];
              message := chat_message "Alice" "hi" "12:00" |}).
  reflexivity.
Defined.

(** X14. A connection already in a room that joins it again, under any
    name, is not added a second time: the room's group and the length of
    its roster are unchanged, the roster shows the connection under the
    new name (or "Anonymous" for the empty name), and every other entry
    is as before. *)
Theorem rejoin_renames_without_duplicating
    (s : Server) (socket room name : string) :
  socket ∈ members s room →
  let s' := state_of (handle socket (Join room name) s) in
  members s' room = members s room ∧
  length (roster s' room) = length (roster s room) ∧
  (∀ c, c ∈ roster s' room → socketId c = socket →
        clientName c = if decide (name = ""%string) then "Anonymous"%string
                       else name) ∧
  (∀ c, socketId c ≠ socket → c ∈ roster s' room ↔ c ∈ roster s room).
Proof.
  intros Hin. cbv zeta.
  assert (members (state_of (handle socket (Join room name) s)) room
          = members s room) as Hm.
  { rewrite handle_members, decide_True by done. by apply set_add_present. }
  split; [done|]. split.
  { unfold roster. by rewrite !length_fmap, Hm. }
  split.
  - intros c Hc Hid. apply roster_names in Hc.
    rewrite handle_userSocketMap, Hid, lookup_insert_eq in Hc.
    simpl in Hc. by case_decide.
  - intros c Hc. unfold roster. rewrite Hm, !list_elem_of_fmap.
    split; intros (id & -> & Hid); exists id; (split; [|done]);
      simpl in Hc; f_equal; f_equal;
      rewrite handle_userSocketMap; by rewrite lookup_insert_ne.
Qed.

Lemma rejoin_renames_without_duplicating_witness :
  let s := state_of (run [ ("a", Connection); ("a", Join "r1" "Alice") ]%string
                         initial) in
  members (state_of (handle "a" (Join "r1" "Al") s)) "r1" = members s "r1".
Proof.
  intros s.
  destruct (rejoin_renames_without_duplicating s "a" "r1" "Al") as [Hm _];
    [|exact Hm].
  assert (members s "r1" = ["a"%string]) as -> by reflexivity.
  apply elem_of_cons. by left.
Defined.

(** * The HTTP endpoints *)

(** ** [trim] *)

Section TrimFacts.
Import Http.

Lemma trim_start_split (t : Text) :
  ∃ l, t = l ++ trim_start t ∧ all_white_space l = true.
Proof.
  induction t as [|c rest IH]; [by exists []|].
  simpl. destruct (is_white_space c) eqn:Hc.
  - destruct IH as (l & Hl & Hw). exists (c :: l). split.
    + simpl. by f_equal.
    + simpl. by rewrite Hc, Hw.
  - by exists [].
Qed.

Lemma trim_start_not_white (t : Text) : starts_white (trim_start t) = false.
Proof.
  induction t as [|c rest IH]; [done|].
  simpl. destruct (is_white_space c) eqn:Hc; [done|]. simpl. exact Hc.
Qed.

Lemma trim_start_empty (t : Text) :
  trim_start t = [] ↔ all_white_space t = true.
Proof.
  induction t as [|c rest IH]; [done|].
  simpl. destruct (is_white_space c); simpl; [done|]. split; discriminate.
Qed.

Lemma trim_end_split (t : Text) :
  ∃ r, t = trim_end t ++ r ∧ all_white_space r = true.
Proof.
  induction t as [|c rest IH]; [by exists []|].
  destruct IH as (r & Hr & Hw). simpl.
  destruct (trim_end rest) as [|b u] eqn:He.
  - simpl in Hr. subst r.
    destruct (is_white_space c) eqn:Hc.
    + exists (c :: rest). split; [done|]. simpl. by rewrite Hc.
    + by exists rest.
  - exists r. split; [|done]. simpl. by f_equal.
Qed.

Lemma trim_end_not_white (t : Text) : ends_white (trim_end t) = false.
Proof.
  induction t as [|c rest IH]; [done|].
  simpl. destruct (trim_end rest) as [|b u] eqn:He.
  - destruct (is_white_space c) eqn:Hc; [done|]. simpl. exact Hc.
  - exact IH.
Qed.

Lemma trim_end_keeps_start (t : Text) :
  starts_white t = false → t ≠ [] →
  starts_white (trim_end t) = false ∧ trim_end t ≠ [].
Proof.
  destruct t as [|c rest]; [done|]. simpl. intros Hc _.
  destruct (trim_end rest); rewrite ?Hc; done.
Qed.

Lemma trim_empty (t : Text) :
  trim t = [] ↔ all_white_space t = true.
Proof.
  rewrite <- trim_start_empty. unfold trim. split.
  - intros He. destruct (trim_start t) as [|c u] eqn:Hs; [done|].
    destruct (trim_end_keeps_start (c :: u)) as [_ Hne]; [|done|done].
    rewrite <- Hs. apply trim_start_not_white.
  - by intros ->.
Qed.

(** The whole of what [trim] does. *)
Lemma trim_spec (t : Text) :
  ∃ l r, t = l ++ trim t ++ r ∧
         all_white_space l = true ∧ all_white_space r = true ∧
         starts_white (trim t) = false ∧ ends_white (trim t) = false.
Proof.
  destruct (trim_start_split t) as (l & Hl & Hwl).
  destruct (trim_end_split (trim_start t)) as (r & Hr & Hwr).
  exists l, r. unfold trim. split; [by rewrite <- Hr|].
  split; [done|]. split; [done|].
  split; [|apply trim_end_not_white].
  destruct (trim_start t) as [|c u] eqn:Hs; [done|].
  apply trim_end_keeps_start; [|done].
  rewrite <- Hs. apply trim_start_not_white.
Qed.

End TrimFacts.

(** ** POST /chat *)

(** The test of line 40 is true exactly for the white-space-only
    messages. *)
Lemma blank_spec (m : Http.Text) :
  Http.blank (Some m) = Http.all_white_space m.
Proof.
  unfold Http.blank. apply eq_true_iff_eq.
  rewrite orb_true_iff. split.
  - intros [Hm|Hm].
    + by destruct m.
    + apply trim_empty. by destruct (Http.trim m).
  - intros Hm. right. apply trim_empty in Hm. by rewrite Hm.
Qed.

(** X15. The chat endpoint answers 400 with the fixed prompt exactly when
    the message is absent or consists only of code units that are white
    space or line terminators of ECMAScript (the empty string included);
    that answer does not depend on the completion service. *)
Theorem chat_blank_message_is_rejected
    (create : Http.ChatRequest → option Http.Completion)
    (message : option Http.Text) :
  (Http.status (Http.post_chat create message) = 400 ↔
   match message with
   | Some m => Http.all_white_space m = true
   | None => True
   end) ∧
  (Http.status (Http.post_chat create message) = 400 →
   Http.post_chat create message =
     {| Http.status := 400;
        Http.body := Http.reply (Http.ascii_text "Please enter a message.") |}).
Proof.
  unfold Http.post_chat. destruct message as [m|]; [|done].
  rewrite blank_spec.
  destruct (Http.all_white_space m); [done|].
  destruct (create _ ≫= Http.first_reply); simpl; split; try split;
    discriminate.
Qed.

Lemma chat_blank_message_is_rejected_witness :
  Http.post_chat (λ _, Some [Some (Http.ascii_text "hello")])
                 (Some [32; 8195; 12288]%N) =
    {| Http.status := 400;
       Http.body := Http.reply (Http.ascii_text "Please enter a message.") |}.
Proof.
  destruct (chat_blank_message_is_rejected
              (λ _, Some [Some (Http.ascii_text "hello")])
              (Some [32; 8195; 12288]%N))
    as [[_ Hiff] Hbody].
  apply Hbody, Hiff. reflexivity.
Defined.

(** X16. A 200 answer of the chat endpoint arises only from a message
    that is not blank and a completion whose first choice has a text; the
    service was asked with the model "gpt-4o-mini" and the message,
    untrimmed, as the user turn after the system turn; the reply is that
    text with white space stripped at both ends and nothing else changed,
    and later choices are ignored. *)
Theorem chat_success_reply_is_trimmed_first_choice
    (create : Http.ChatRequest → option Http.Completion)
    (message : option Http.Text) (r : Http.Body) :
  Http.post_chat create message = {| Http.status := 200; Http.body := r |} →
  ∃ m text rest l t answer,
    message = Some m ∧
    Http.all_white_space m = false ∧
    create {| Http.model := "gpt-4o-mini";
              Http.messages :=
                [ {| Http.role := "system"; Http.content := Http.system_prompt |};
                  {| Http.role := "user"; Http.content := m |} ];
              Http.temperature_tenths := 7 |} = Some (Some text :: rest) ∧
    r = Http.reply answer ∧
    text = l ++ answer ++ t ∧
    Http.all_white_space l = true ∧ Http.all_white_space t = true ∧
    Http.starts_white answer = false ∧ Http.ends_white answer = false.
Proof.
  intros Hpost.
  unfold Http.post_chat in Hpost. destruct message as [m|]; [|discriminate].
  rewrite blank_spec in Hpost.
  destruct (Http.all_white_space m) eqn:Hw; [discriminate|].
  fold (Http.chat_request m).
  destruct (create (Http.chat_request m)) as [c|] eqn:Hc; [|discriminate].
  destruct c as [|[text|] rest]; simpl in Hpost; try discriminate.
  injection Hpost as <-.
  destruct (trim_spec text) as (l & t & Htext & Hl & Ht & Hs & He).
  by exists m, text, rest, l, t, (Http.trim text).
Qed.

Lemma chat_success_reply_is_trimmed_first_choice_witness :
  ∃ m answer,
    Some (Http.ascii_text "hi ") = Some m ∧
    Http.reply (Http.ascii_text "hello") = Http.reply answer ∧
    Http.ends_white answer = false.
Proof.
  destruct (chat_success_reply_is_trimmed_first_choice
              (λ _, Some [Some ([12288; 10]%N ++ Http.ascii_text "hello" ++ [8232]%N);
                          Some (Http.ascii_text "other")])
              (Some (Http.ascii_text "hi "))
              (Http.reply (Http.ascii_text "hello")))
    as (m & _ & _ & _ & _ & answer & Hm & _ & _ & Hr & _ & _ & _ & _ & He);
    [reflexivity|].
  exists m, answer. split; [exact Hm|]. split; [exact Hr|exact He].
Defined.

(** X17. For a message that is not blank the chat endpoint never answers
    400: it answers 500 with the fixed unavailable text when the service
    call fails, returns no choice, or returns a first choice without
    text, and 200 with a reply otherwise.  Every answer of the endpoint
    is a reply body with status 200, 400 or 500. *)
Theorem chat_service_failure_gives_500
    (create : Http.ChatRequest → option Http.Completion) (m : Http.Text) :
  Http.all_white_space m = false →
  let res := Http.post_chat create (Some m) in
  ((create (Http.chat_request m) = None ∨
    create (Http.chat_request m) = Some [] ∨
    (∃ rest, create (Http.chat_request m) = Some (None :: rest))) ↔
   res = {| Http.status := 500;
            Http.body := Http.reply Http.assistant_unavailable |}) ∧
  (∃ text, Http.body res = Http.reply text) ∧
  (Http.status res = 200 ∨ Http.status res = 500).
Proof.
  intros Hw. cbv zeta. unfold Http.post_chat. rewrite blank_spec, Hw.
  destruct (create (Http.chat_request m)) as [[|[text|] rest]|]; simpl.
  - split; [|split; [eauto|by right]]. split; [done|]. intros _.
    right. by left.
  - split; [|split; [eauto|by left]]. split; [|discriminate].
    intros [?|[?|(? & ?)]]; discriminate.
  - split; [|split; [eauto|by right]]. split; [done|]. intros _.
    right. right. by eexists.
  - split; [|split; [eauto|by right]]. split; [done|]. intros _. by left.
Qed.

Lemma chat_service_failure_gives_500_witness :
  Http.post_chat (λ _, None) (Some (Http.ascii_text "hi")) =
    {| Http.status := 500;
       Http.body := Http.reply Http.assistant_unavailable |}.
Proof.
  destruct (chat_service_failure_gives_500 (λ _, None) (Http.ascii_text "hi"))
    as [[Hfail _] _]; [reflexivity|].
  apply Hfail. by left.
Defined.

(** ** POST /run *)

Lemma or_else_nonempty (v : option string) (d : string) :
  d ≠ ""%string → JS.or_else v d ≠ ""%string.
Proof.
  intros Hd. rewrite or_else_spec. destruct v as [x|]; [|done].
  by case_decide.
Qed.

Lemma table_lookup (lang : string) :
  (Http.langMap !! lang, Http.versionMap !! lang) ∈
    [ (Some "python3", Some "4"); (Some "java", Some "4");
      (Some "cpp17", Some "5"); (Some "c", Some "5");
      (Some "nodejs", Some "4"); (Some "php", Some "4");
      (Some "ruby", Some "3"); (Some "go", Some "3");
      (Some "csharp", Some "3"); (Some "swift", Some "4");
      (Some "kotlin", Some "4"); (None, None) ]%string.
Proof.
  pose proof (λ k, decide (lang = k)) as is_key.
  destruct (is_key "python"%string) as [->|?]; [vm_compute; set_solver|].
  destruct (is_key "java"%string) as [->|?]; [vm_compute; set_solver|].
  destruct (is_key "cpp"%string) as [->|?]; [vm_compute; set_solver|].
  destruct (is_key "c"%string) as [->|?]; [vm_compute; set_solver|].
  destruct (is_key "javascript"%string) as [->|?]; [vm_compute; set_solver|].
  destruct (is_key "php"%string) as [->|?]; [vm_compute; set_solver|].
  destruct (is_key "ruby"%string) as [->|?]; [vm_compute; set_solver|].
  destruct (is_key "go"%string) as [->|?]; [vm_compute; set_solver|].
  destruct (is_key "csharp"%string) as [->|?]; [vm_compute; set_solver|].
  destruct (is_key "swift"%string) as [->|?]; [vm_compute; set_solver|].
  destruct (is_key "kotlin"%string) as [->|?]; [vm_compute; set_solver|].
  unfold Http.langMap, Http.versionMap. simpl list_to_map.
  rewrite !lookup_insert_ne by done. rewrite !lookup_empty. set_solver.
Qed.

(** X18. The run endpoint sends the code unchanged.  The two tables
    have the same keys; for a language they hold, the request carries
    that language's entries of both tables.  A language they do not hold
    is run exactly as "python" is, as "python3" with version "4", unless
    its name is that of an inherited property: then both fields carry
    the inherited value, which the body omits when it is a function and
    writes as an empty object for "__proto__". *)
Theorem run_request_language_and_version
    (env_clientId env_clientSecret : option string) (lang code : string) :
  let q := Http.run_request env_clientId env_clientSecret lang code in
  Http.script q = code ∧
  (Http.langMap !! lang = None ↔ Http.versionMap !! lang = None) ∧
  (∀ l, Http.langMap !! lang = Some l →
     ∃ v, Http.versionMap !! lang = Some v ∧
          Http.language q = Http.field_string l ∧
          Http.versionIndex q = Http.field_string v) ∧
  (Http.langMap !! lang = None →
   match object_prototype lang with
   | None =>
       q = Http.run_request env_clientId env_clientSecret "python" code ∧
       Http.language q = Http.field_string "python3" ∧
       Http.versionIndex q = Http.field_string "4"
   | Some inherited_function =>
       Http.language q = Http.field_omitted ∧
       Http.versionIndex q = Http.field_omitted
   | Some inherited_prototype =>
       Http.language q = Http.field_object ∧
       Http.versionIndex q = Http.field_object
   end).
Proof.
  cbv zeta. unfold Http.run_request, Http.table_field. simpl.
  pose proof (table_lookup lang) as Hin.
  destruct (Http.langMap !! lang) as [l|] eqn:Hl;
    destruct (Http.versionMap !! lang) as [v|] eqn:Hv;
    repeat (apply elem_of_cons in Hin as [Hin|Hin]; [simplify_eq|]);
    try (by apply elem_of_nil in Hin);
    try (repeat split; try done; intros l' [= <-]; by eexists).
  split; [done|]. split; [done|]. split; [done|]. intros _.
  by destruct (object_prototype lang) as [[|]|].
Qed.

(** X19. The run endpoint always answers with status 200 and an output
    that is never empty: the service's output when it has a non-empty
    one, else the service's error when it has a non-empty one, else
    "No output"; and "Error running code" when the call to the service
    fails. *)
Theorem run_answer_is_200_with_nonempty_output
    (fetch : Http.RunRequest → option Http.RunData)
    (env_clientId env_clientSecret : option string) (lang code : string) :
  let res := Http.post_run fetch env_clientId env_clientSecret lang code in
  Http.status res = 200 ∧
  ∃ o,
    Http.body res = Http.output o ∧
    o ≠ ""%string ∧
    match fetch (Http.run_request env_clientId env_clientSecret lang code) with
    | None => o = "Error running code"%string
    | Some d =>
        let missing (v : option string) := v = None ∨ v = Some ""%string in
        (∀ x, Http.data_output d = Some x → x ≠ ""%string → o = x) ∧
        (missing (Http.data_output d) →
         ∀ y, Http.data_error d = Some y → y ≠ ""%string → o = y) ∧
        (missing (Http.data_output d) → missing (Http.data_error d) →
         o = "No output"%string)
    end.
Proof.
  cbv zeta. unfold Http.post_run.
  destruct (fetch _) as [[out err]|]; simpl.
  - split; [done|]. eexists. split; [done|].
    split; [by apply or_else_nonempty|].
    rewrite or_else_spec. unfold Http.or_undefined.
    destruct out as [x|]; [destruct (JS.truthy_string x) eqn:Hx|].
    + apply truthy_string_spec in Hx. rewrite decide_False by done.
      split; [by intros ? [= <-]|].
      split; intros [?|?]; simplify_eq.
    + assert (x = ""%string) as ->.
      { destruct (decide (x = ""%string)) as [|Hne]; [done|].
        apply truthy_string_spec in Hne. congruence. }
      split; [by intros ? [= <-]|].
      destruct err as [y|]; split.
      * intros _ ? [= <-] Hy. by rewrite decide_False.
      * intros _ [?|[= ->]]; [done|]. by rewrite decide_True.
      * by intros _ ? ?.
      * done.
    + split; [by intros ? ?|].
      destruct err as [y|]; split.
      * intros _ ? [= <-] Hy. by rewrite decide_False.
      * intros _ [?|[= ->]]; [done|]. by rewrite decide_True.
      * by intros _ ? ?.
      * done.
  - split; [done|]. by eexists.
Qed.

Lemma run_request_language_and_version_witness :
  Http.run_request None None "rust" "fn main() {}" =
  Http.run_request None None "python" "fn main() {}".
Proof.
  destruct (run_request_language_and_version None None "rust" "fn main() {}")
    as (_ & _ & _ & Hdefault).
  apply Hdefault. reflexivity.
Defined.

Lemma run_answer_is_200_with_nonempty_output_witness :
  ∃ o,
    Http.body (Http.post_run
                 (λ _, Some {| Http.data_output := Some ""%string;
                               Http.data_error := None |})
                 None None "python" "pass") = Http.output o ∧
    o = "No output"%string.
Proof.
  destruct (run_answer_is_200_with_nonempty_output
              (λ _, Some {| Http.data_output := Some ""%string;
                            Http.data_error := None |})
              None None "python" "pass") as (_ & o & Hbody & _ & Hcases).
  exists o. split; [exact Hbody|].
  destruct Hcases as (_ & _ & Hnone).
  apply Hnone; [by right|by left].
Defined.
